(** * Step-gated passwordless authentication flows

    A shallow embedding of the three credential forms of the admin console:
    - [Join]               components/auth/Join.tsx
    - [JoinWithInvitation] components/auth/JoinWithInvitation.tsx
    - [Login]              the login page

    Each form is a React component that keeps a [step] cell, hands a Yup
    schema and an [onSubmit] callback to Formik, and talks to the Hawcx
    provider ([signUp], [signIn], [verifyOTP]).  The embedding keeps the
    source's names; what the source imports from elsewhere
    ([maxLengthPolicies], the e-mail pattern of Yup, the translation function
    [t], [env.redirectIfAuthenticated]) is taken as a parameter. *)

From stdpp Require Import gmap strings list.

(** ** JavaScript truthiness of the values the forms test *)

(** A string is falsy exactly when it is empty. *)
Definition truthy (s : string) : bool := negb (String.eqb s "").

(** [undefined] is falsy; [x?.f] on a missing [x] is [undefined]. *)
Definition truthy_opt (o : option string) : bool := from_option truthy false o.

(** Method chaining [x.f().g()] reads [x |> f |> g]. *)
Notation "x |> f" := (f x) (at level 45, left associativity, only parsing).

(** ** JavaScript strings *)

(** A string of the source is written here by its UTF-8 bytes, and JavaScript
    measures it in UTF-16 code units: a continuation byte adds nothing, the
    lead byte of a four-byte sequence adds two (a surrogate pair), every
    other lead byte one. *)
Definition utf16_units (a : Ascii.ascii) : nat :=
  let n := Ascii.nat_of_ascii a in
  if (n <? 128)%nat then 1
  else if (n <? 192)%nat then 0
  else if (n <? 240)%nat then 1
  else 2.

(** [s.length] *)
Fixpoint utf16_length (s : string) : nat :=
  match s with
  | EmptyString => 0
  | String a s' => utf16_units a + utf16_length s'
  end.

(** ** The fragment of Yup the schemas use *)

Module Yup.

Inductive Test :=
| isEmail
| minLength (n : nat)
| maxLength (n : nat).

Inductive Error :=
| required_error
| email_error
| min_error (n : nat)
| max_error (n : nat).

(** A string schema: whether the value may be missing, and the tests in the
    order the chain added them. *)
Record Schema := { optional : bool; tests : list Test }.

Definition required (s : Schema) : Schema :=
  {| optional := false; tests := tests s |}.

Definition notRequired (s : Schema) : Schema :=
  {| optional := true; tests := tests s |}.

Definition email (s : Schema) : Schema :=
  {| optional := optional s; tests := tests s ++ [isEmail] |}.

Definition is_minLength (t : Test) : bool :=
  match t with minLength _ => true | _ => false end.

Definition is_maxLength (t : Test) : bool :=
  match t with maxLength _ => true | _ => false end.

(** [min] and [max] are exclusive tests: a second one replaces the first
    and takes its place at the end of the chain. *)
Definition min (n : nat) (s : Schema) : Schema :=
  {| optional := optional s;
     tests := List.filter (λ t, negb (is_minLength t)) (tests s)
              ++ [minLength n] |}.

Definition max (n : nat) (s : Schema) : Schema :=
  {| optional := optional s;
     tests := List.filter (λ t, negb (is_maxLength t)) (tests s)
              ++ [maxLength n] |}.

(** [schema.when(key, { is, then, otherwise })], resolved against the value
    found for [key] (a sibling field, or a context entry for [$key]). *)
Definition when {K : Type} (key : K) (is_ : K → bool)
    (then_ otherwise : Schema → Schema) (s : Schema) : Schema :=
  if is_ key then then_ s else otherwise s.

Section Validate.
(** The pattern behind [email()]. *)
Variable rEmail : String.string → bool.

Definition run_test (t : Test) (v : String.string) : option Error :=
  match t with
  | isEmail => if rEmail v then None else Some email_error
  | minLength n =>
      if (n <=? utf16_length v)%nat then None else Some (min_error n)
  | maxLength n =>
      if (utf16_length v <=? n)%nat then None else Some (max_error n)
  end.

Fixpoint first_error (ts : list Test) (v : String.string) : option Error :=
  match ts with
  | [] => None
  | t :: ts =>
      match run_test t v with
      | Some e => Some e
      | None => first_error ts v
      end
  end.

(** Formik hands an empty input to Yup as a missing value: it fails a
    required schema and skips the tests of an optional one. *)
Definition validate (s : Schema) (v : String.string) : option Error :=
  if String.eqb v "" then
    if optional s then None else Some required_error
  else first_error (tests s) v.

(** [Yup.boolean().required()] *)
Definition validate_boolean_required (v : option bool) : option Error :=
  match v with
  | Some _ => None
  | None => Some required_error
  end.

(** One entry of [shape({ ... })]: the error of a field, keyed by its
    name as in Formik's [errors] object. *)
Definition field (name : String.string) (e : option Error)
    : gmap String.string Error :=
  match e with
  | Some err => {[ name := err ]}
  | None => ∅
  end.
End Validate.

(** [Yup.string()] *)
Definition string : Schema := {| optional := true; tests := [] |}.

End Yup.

(** [maxLengthPolicies] of lib/common, of which the forms read three
    entries. *)
Record MaxLengthPolicies := {
  policy_name : nat;
  policy_email : nat;
  policy_team : nat
}.

(** What a field being required means: validation reports the required
    error for it whenever its input is left empty. *)
Definition reports_required (errors : gmap string Yup.Error) (name : string)
    : Prop :=
  errors !! name = Some Yup.required_error.

(** ** The Hawcx provider, as the forms see it *)

Module Hawcx.

Record Data := { access_token : option string }.

(** What [signUp], [signIn] and [verifyOTP] resolve to. *)
Record AuthResult := {
  success : bool;
  message : string;
  data : option Data
}.

(** The three entry points, with the argument each is given. *)
Inductive Call :=
| signUp (email : string)
| signIn (email : string)
| verifyOTP (otp : string).

(** [res.data?.access_token] *)
Definition data_access_token (res : AuthResult) : option string :=
  data res ≫= access_token.

End Hawcx.

(** ** What a submission does to its surroundings *)

Module Status.
(** [ComponentStatus] of react-daisyui. *)
Inductive ComponentStatus := info | success | warning | error.
End Status.

(** The [Message] cell of the login page. *)
Record Message := {
  text : option string;
  status : option Status.ComponentStatus
}.

(** The statements of an [onSubmit] body that reach outside of it. *)
Inductive Cmd (Step : Type) :=
| setStep (s : Step)
| setMessage (m : Message)
| toast_error (msg : string)
| toast_success (msg : string)
| sessionStorage_setItem (key value : string)
| router_push (url : string).

Arguments setStep {Step} s.
Arguments setMessage {Step} m.
Arguments toast_error {Step} msg.
Arguments toast_success {Step} msg.
Arguments sessionStorage_setItem {Step} key value.
Arguments router_push {Step} url.

(** An [async] body: statements in sequence, suspended at every [await] of a
    provider call until the call resolves. *)
Inductive Async (Step : Type) :=
| Return
| Do (c : Cmd Step) (k : Async Step)
| Await (c : Hawcx.Call) (k : Hawcx.AuthResult → Async Step).

Arguments Return {Step}.
Arguments Do {Step} c k.
Arguments Await {Step} c k.

Declare Scope async_scope.
Delimit Scope async_scope with async.
Bind Scope async_scope with Async.
Notation "c ;; k" := (Do c k)
  (at level 100, k at level 200, right associativity) : async_scope.

(** An input element as rendered: the [name] Formik dispatches its changes
    on (if it has one), and whether it is [disabled]. *)
Record Input := {
  input_name : option string;
  input_value : string;
  input_disabled : bool
}.

(** The provider is outside the program: its answer to a call may depend on
    every call made so far (the last of the list is the one being answered).
    It stands for the handle that [await getHawcxAuth()] resolves to; the
    bodies below start at the statement after that [await]. *)
Definition Provider := list Hawcx.Call → Hawcx.AuthResult.

Section Component.
Context {Step Values : Type}.

(** The cells of a form component. *)
Record State := {
  step : Step;
  values : Values;
  recaptchaToken : string;
  message : Message
}.

Inductive Event :=
| called (c : Hawcx.Call)
| ran (c : Cmd Step).

(** The browser session around the component. *)
Record World := {
  sessionStorage : gmap string string;
  log : list Event
}.

Definition event_call (e : Event) : option Hawcx.Call :=
  match e with called c => Some c | ran _ => None end.

Definition event_write (e : Event) : option (string * string) :=
  match e with
  | ran (sessionStorage_setItem k v) => Some (k, v)
  | _ => None
  end.

Definition event_push (e : Event) : option string :=
  match e with ran (router_push url) => Some url | _ => None end.

(** The provider calls made so far. *)
Definition calls (w : World) : list Hawcx.Call := omap event_call (log w).

(** The [sessionStorage.setItem] statements executed so far. *)
Definition writes (w : World) : list (string * string) :=
  omap event_write (log w).

(** The [router.push] statements executed so far. *)
Definition pushes (w : World) : list string := omap event_push (log w).

Definition apply_state (c : Cmd Step) (st : State) : State :=
  match c with
  | setStep s =>
      {| step := s; values := values st;
         recaptchaToken := recaptchaToken st; message := message st |}
  | setMessage m =>
      {| step := step st; values := values st;
         recaptchaToken := recaptchaToken st; message := m |}
  | _ => st
  end.

Definition apply_world (c : Cmd Step) (w : World) : World :=
  {| sessionStorage :=
       match c with
       | sessionStorage_setItem k v => <[k := v]> (sessionStorage w)
       | _ => sessionStorage w
       end;
     log := log w ++ [ran c] |}.

Definition call_world (c : Hawcx.Call) (w : World) : World :=
  {| sessionStorage := sessionStorage w; log := log w ++ [called c] |}.

(** Running a body to completion against a provider. *)
Fixpoint exec (provider : Provider) (p : Async Step) (st : State) (w : World)
    : State * World :=
  match p with
  | Return => (st, w)
  | Do c k => exec provider k (apply_state c st) (apply_world c w)
  | Await c k =>
      let w' := call_world c w in
      exec provider (k (provider (calls w'))) st w'
  end.

(** A form component: its submit callback (a closure over the cells), the
    inputs it renders, and how Formik's [handleChange] stores a changed
    input under its name. *)
Record Component := {
  onSubmit : State → Async Step;
  inputs : State → list Input;
  handleChange : string → string → Values → Values
}.

(** An input takes user edits when it is rendered under that name and is
    not disabled. *)
Definition editable (C : Component) (st : State) (name : string) : bool :=
  existsb
    (λ i, bool_decide (input_name i = Some name) && negb (input_disabled i))
    (inputs C st).

(** The setter the CAPTCHA widget is given as [onChange]. *)
Definition setRecaptchaToken (token : string) (st : State) : State :=
  {| step := step st; values := values st;
     recaptchaToken := token; message := message st |}.

(** What reaches the component from the user.  [Submit] is an invocation of
    [onSubmit] on the current values. *)
Inductive UserEvent :=
| Change (name value : string)
| Captcha (token : string)
| Submit.

Definition handle (provider : Provider) (C : Component) (ev : UserEvent)
    (σ : State * World) : State * World :=
  let (st, w) := σ in
  match ev with
  | Change name value =>
      if editable C st name then
        ({| step := step st; values := handleChange C name value (values st);
            recaptchaToken := recaptchaToken st; message := message st |}, w)
      else (st, w)
  | Captcha token => (setRecaptchaToken token st, w)
  | Submit => exec provider (onSubmit C st) st w
  end.

Definition run (provider : Provider) (C : Component) (evs : list UserEvent)
    (σ : State * World) : State * World :=
  foldl (λ σ ev, handle provider C ev σ) σ evs.

End Component.

Arguments State : clear implicits.
Arguments World : clear implicits.
Arguments Event : clear implicits.
Arguments Component : clear implicits.

Definition empty_world {Step} : World Step :=
  {| sessionStorage := ∅; log := [] |}.
Definition no_message : Message := {| text := None; status := None |}.

(** [String(x)] and [`${x}`] of a possibly undefined string. *)
Definition to_string (o : option string) : string := default "undefined" o.

(** ** components/auth/Join.tsx *)

Module Join.

(** [useState<'form' | 'otp'>('form')] *)
Inductive Step := Form | Otp.

#[global] Instance Step_eq_dec : EqDecision Step.
Proof. solve_decision. Defined.

Record Values := {
  name : string;
  email : string;
  otp : string;
  team : string
}.

Definition initialValues : Values :=
  {| name := ""; email := ""; otp := ""; team := "" |}.

Section Schema.
Variable maxLengthPolicies : MaxLengthPolicies.
Variable rEmail : string → bool.

(** [JoinUserSchema], resolved in a Yup context that holds the step. *)
Definition JoinUserSchema (step : Step) (values : Values)
    : gmap string Yup.Error :=
  Yup.field "name"
    (Yup.validate rEmail
       (Yup.string |> Yup.required
                   |> Yup.max (policy_name maxLengthPolicies))
       (name values))
  ∪ Yup.field "email"
    (Yup.validate rEmail
       (Yup.string |> Yup.required |> Yup.email
                   |> Yup.max (policy_email maxLengthPolicies))
       (email values))
  ∪ Yup.field "otp"
    (Yup.validate rEmail
       (Yup.string |> Yup.when step (λ s, bool_decide (s = Otp))
                        (λ schema, schema |> Yup.required)
                        (λ schema, schema |> Yup.notRequired))
       (otp values))
  ∪ Yup.field "team"
    (Yup.validate rEmail
       (Yup.string |> Yup.required |> Yup.min 3
                   |> Yup.max (policy_team maxLengthPolicies))
       (team values)).

(** [JoinUserSchema], resolved in any Yup context: [$step] is the entry
    [step] of the context, if it has one. *)
Definition JoinUserSchema_in (context_step : option Step) (values : Values)
    : gmap string Yup.Error :=
  Yup.field "name"
    (Yup.validate rEmail
       (Yup.string |> Yup.required
                   |> Yup.max (policy_name maxLengthPolicies))
       (name values))
  ∪ Yup.field "email"
    (Yup.validate rEmail
       (Yup.string |> Yup.required |> Yup.email
                   |> Yup.max (policy_email maxLengthPolicies))
       (email values))
  ∪ Yup.field "otp"
    (Yup.validate rEmail
       (Yup.string |> Yup.when context_step
                        (λ s, bool_decide (s = Some Otp))
                        (λ schema, schema |> Yup.required)
                        (λ schema, schema |> Yup.notRequired))
       (otp values))
  ∪ Yup.field "team"
    (Yup.validate rEmail
       (Yup.string |> Yup.required |> Yup.min 3
                   |> Yup.max (policy_team maxLengthPolicies))
       (team values)).

(** How the form validates as it runs.  [useFormik] has no option
    [validationContext]: the one the component passes is not read, and Formik
    hands Yup the values themselves as the context.  The values hold no
    entry [step], so [$step] is undefined. *)
Definition runValidationSchema (values : Values) : gmap string Yup.Error :=
  JoinUserSchema_in None values.
End Schema.

Section Body.
(** [t] of [useTranslation('common')]. *)
Variable t : string → string.

Definition onSubmit (st : State Step Values) : Async Step :=
  match step st with
  | Form =>
      Await (Hawcx.signUp (email (values st))) (λ res,
        if Hawcx.success res then
          (setStep Otp ;; Return)%async
        else
          (toast_error (Hawcx.message res) ;; Return)%async)
  | Otp =>
      Await (Hawcx.verifyOTP (otp (values st))) (λ verify,
        if Hawcx.success verify then
          (toast_success (t "successfully-joined") ;;
           router_push "/auth/login" ;; Return)%async
        else
          (toast_error (Hawcx.message verify) ;; Return)%async)
  end.

Definition inputs (st : State Step Values) : list Input :=
  [ {| input_name := Some "name"; input_value := name (values st);
       input_disabled := false |};
    {| input_name := Some "team"; input_value := team (values st);
       input_disabled := false |};
    {| input_name := Some "email"; input_value := email (values st);
       input_disabled := false |} ]
  ++ (if bool_decide (step st = Otp) then
        [ {| input_name := Some "otp"; input_value := otp (values st);
             input_disabled := false |} ]
      else []).

Definition handleChange (n v : string) (vs : Values) : Values :=
  if String.eqb n "name" then
    {| name := v; email := email vs; otp := otp vs; team := team vs |}
  else if String.eqb n "team" then
    {| name := name vs; email := email vs; otp := otp vs; team := v |}
  else if String.eqb n "email" then
    {| name := name vs; email := v; otp := otp vs; team := team vs |}
  else if String.eqb n "otp" then
    {| name := name vs; email := email vs; otp := v; team := team vs |}
  else vs.

Definition component : Component Step Values :=
  Build_Component onSubmit inputs handleChange.

Definition init : State Step Values :=
  {| step := Form; values := initialValues;
     recaptchaToken := ""; message := no_message |}.
End Body.

End Join.

(** ** components/auth/JoinWithInvitation.tsx *)

Module Invitation.
(** What [useInvitation] yields once loaded. *)
Record t := { email : option string; sentViaEmail : bool }.
End Invitation.

Module JoinWithInvitation.

Inductive Step := Form | Otp.

#[global] Instance Step_eq_dec : EqDecision Step.
Proof. solve_decision. Defined.

Record Values := {
  name : string;
  email : string;
  otp : string;
  sentViaEmail : bool
}.

(** [initialValues]; [invitation?.sentViaEmail] is [undefined], hence
    falsy, while the invitation is missing. *)
Definition initialValues (invitation : option Invitation.t) : Values :=
  {| name := ""; email := ""; otp := "";
     sentViaEmail :=
       from_option Invitation.sentViaEmail false invitation || true |}.

Section Schema.
Variable maxLengthPolicies : MaxLengthPolicies.
Variable rEmail : string → bool.

Definition JoinUserSchema (step : Step) (values : Values)
    : gmap string Yup.Error :=
  Yup.field "name"
    (Yup.validate rEmail
       (Yup.string |> Yup.required
                   |> Yup.max (policy_name maxLengthPolicies))
       (name values))
  ∪ Yup.field "otp"
    (Yup.validate rEmail
       (Yup.string |> Yup.when step (λ s, bool_decide (s = Otp))
                        (λ schema, schema |> Yup.required)
                        (λ schema, schema |> Yup.notRequired))
       (otp values))
  ∪ Yup.field "sentViaEmail"
    (Yup.validate_boolean_required (Some (sentViaEmail values)))
  ∪ Yup.field "email"
    (Yup.validate rEmail
       (Yup.string
          |> Yup.max (policy_email maxLengthPolicies)
          |> Yup.when (sentViaEmail values) (λ b, bool_decide (b = false))
               (λ schema, schema |> Yup.required |> Yup.email
                                 |> Yup.max (policy_email maxLengthPolicies))
               (λ schema, schema))
       (email values)).

Definition JoinUserSchema_in (context_step : option Step) (values : Values)
    : gmap string Yup.Error :=
  Yup.field "name"
    (Yup.validate rEmail
       (Yup.string |> Yup.required
                   |> Yup.max (policy_name maxLengthPolicies))
       (name values))
  ∪ Yup.field "otp"
    (Yup.validate rEmail
       (Yup.string |> Yup.when context_step
                        (λ s, bool_decide (s = Some Otp))
                        (λ schema, schema |> Yup.required)
                        (λ schema, schema |> Yup.notRequired))
       (otp values))
  ∪ Yup.field "sentViaEmail"
    (Yup.validate_boolean_required (Some (sentViaEmail values)))
  ∪ Yup.field "email"
    (Yup.validate rEmail
       (Yup.string
          |> Yup.max (policy_email maxLengthPolicies)
          |> Yup.when (sentViaEmail values) (λ b, bool_decide (b = false))
               (λ schema, schema |> Yup.required |> Yup.email
                                 |> Yup.max (policy_email maxLengthPolicies))
               (λ schema, schema))
       (email values)).

(** How the form validates as it runs: with the values as the context. *)
Definition runValidationSchema (values : Values) : gmap string Yup.Error :=
  JoinUserSchema_in None values.
End Schema.

Section Body.
Variable t : string → string.
Variable inviteToken : string.
(** [useInvitation()]; [error], when there is one, is given by its
    [message]. *)
Variable isLoading : bool.
Variable error : option string.
Variable invitation : option Invitation.t.

Definition onSubmit (st : State Step Values) : Async Step :=
  match step st with
  | Form =>
      Await (Hawcx.signUp (email (values st))) (λ res,
        if Hawcx.success res then
          (setStep Otp ;; Return)%async
        else
          (toast_error (Hawcx.message res) ;; Return)%async)
  | Otp =>
      Await (Hawcx.verifyOTP (otp (values st))) (λ verify,
        if Hawcx.success verify then
          (toast_success (t "successfully-joined") ;;
           router_push ("/auth/login?token=" +:+ inviteToken) ;;
           Return)%async
        else
          (toast_error (Hawcx.message verify) ;; Return)%async)
  end.

(** What the component returns: [<Loading />], [<Error message=... />],
    or the form with its inputs.  [error || !invitation] also holds when
    there is no error and no invitation yet, and [error.message] then reads
    a property of [undefined]: the render throws. *)
Inductive View :=
| Loading
| Error (message : string)
| throws
| form (inputs : list Input).

Definition render (st : State Step Values) : View :=
  if isLoading then Loading
  else match error, invitation with
  | Some message, _ => Error message
  | None, None => throws
  | None, Some inv =>
      form
        ([ {| input_name := Some "name"; input_value := name (values st);
              input_disabled := false |};
           if Invitation.sentViaEmail inv then
             {| input_name := None;
                input_value := to_string (Invitation.email inv);
                input_disabled := true |}
           else
             {| input_name := Some "email"; input_value := email (values st);
                input_disabled := false |} ]
         ++ (if bool_decide (step st = Otp) then
               [ {| input_name := Some "otp"; input_value := otp (values st);
                    input_disabled := false |} ]
             else []))
  end.

(** The inputs on the page: those of the form, when it is what is
    rendered. *)
Definition inputs (st : State Step Values) : list Input :=
  match render st with
  | form inputs => inputs
  | _ => []
  end.

Definition handleChange (n v : string) (vs : Values) : Values :=
  if String.eqb n "name" then
    {| name := v; email := email vs; otp := otp vs;
       sentViaEmail := sentViaEmail vs |}
  else if String.eqb n "email" then
    {| name := name vs; email := v; otp := otp vs;
       sentViaEmail := sentViaEmail vs |}
  else if String.eqb n "otp" then
    {| name := name vs; email := email vs; otp := v;
       sentViaEmail := sentViaEmail vs |}
  else vs.

Definition component : Component Step Values :=
  Build_Component onSubmit inputs handleChange.

Definition init : State Step Values :=
  {| step := Form; values := initialValues invitation;
     recaptchaToken := ""; message := no_message |}.
End Body.

End JoinWithInvitation.

(** ** The login page *)

Module Login.

(** [useState<'email' | 'otp'>('email')] *)
Inductive Step := Email | Otp.

#[global] Instance Step_eq_dec : EqDecision Step.
Proof. solve_decision. Defined.

Record Values := {
  email : string;
  otp : string
}.

Definition initialValues : Values := {| email := ""; otp := "" |}.

(** [router.query], of which the page reads three entries. *)
Record Query := {
  error : option string;
  success : option string;
  token : option string
}.

(** The [useEffect] on [error] and [success]. *)
Definition initialMessage (q : Query) : Message :=
  let m :=
    if truthy_opt (error q)
    then {| text := error q; status := Some Status.error |}
    else no_message in
  if truthy_opt (success q)
  then {| text := success q; status := Some Status.success |}
  else m.

(** [redirectUrl], with [env.redirectIfAuthenticated] as its second
    argument. *)
Definition redirectUrl (token : option string)
    (redirectIfAuthenticated : string) : string :=
  if truthy_opt token
  then "/invitations/" +:+ to_string token
  else redirectIfAuthenticated.

Section Schema.
Variable maxLengthPolicies : MaxLengthPolicies.
Variable rEmail : string → bool.

Definition validationSchema (step : Step) (values : Values)
    : gmap string Yup.Error :=
  Yup.field "email"
    (Yup.validate rEmail
       (Yup.string |> Yup.required |> Yup.email
                   |> Yup.max (policy_email maxLengthPolicies))
       (email values))
  ∪ Yup.field "otp"
    (Yup.validate rEmail
       (Yup.string |> Yup.when step (λ s, bool_decide (s = Otp))
                        (λ schema, schema |> Yup.required)
                        (λ schema, schema |> Yup.notRequired))
       (otp values)).

Definition validationSchema_in (context_step : option Step) (values : Values)
    : gmap string Yup.Error :=
  Yup.field "email"
    (Yup.validate rEmail
       (Yup.string |> Yup.required |> Yup.email
                   |> Yup.max (policy_email maxLengthPolicies))
       (email values))
  ∪ Yup.field "otp"
    (Yup.validate rEmail
       (Yup.string |> Yup.when context_step
                        (λ s, bool_decide (s = Some Otp))
                        (λ schema, schema |> Yup.required)
                        (λ schema, schema |> Yup.notRequired))
       (otp values)).

(** How the page validates as it runs: with the values as the context. *)
Definition runValidationSchema (values : Values) : gmap string Yup.Error :=
  validationSchema_in None values.
End Schema.

Inductive SessionStatus := loading | authenticated | unauthenticated.

#[global] Instance SessionStatus_eq_dec : EqDecision SessionStatus.
Proof. solve_decision. Defined.

(** What decides whether the page shows the form: [status] of
    [useSession()] (nothing but a spinner while it is ['loading']) and
    [authProviders.credentials]. *)
Record Page := { sessionStatus : SessionStatus; credentials : bool }.

Section Body.
Variable query : Query.
Variable redirectIfAuthenticated : string.
(** Whether the form is rendered at all. *)
Variable page : Page.

Definition onSubmit (st : State Step Values) : Async Step :=
  let redirectUrl := redirectUrl (token query) redirectIfAuthenticated in
  (setMessage no_message ;;
   match step st with
   | Email =>
       Await (Hawcx.signIn (email (values st))) (λ res,
         if Hawcx.success res && truthy_opt (Hawcx.data_access_token res)
         then
           (sessionStorage_setItem "access_token"
              (to_string (Hawcx.data_access_token res)) ;;
            router_push redirectUrl ;; Return)
         else if Hawcx.success res then
           (setStep Otp ;; Return)
         else
           (setMessage {| text := Some (Hawcx.message res);
                          status := Some Status.error |} ;; Return))
   | Otp =>
       Await (Hawcx.verifyOTP (otp (values st))) (λ verify,
         if Hawcx.success verify then
           let k := (router_push redirectUrl ;; Return) in
           if truthy_opt (Hawcx.data_access_token verify) then
             (sessionStorage_setItem "access_token"
                (to_string (Hawcx.data_access_token verify)) ;; k)
           else k
         else
           (setMessage {| text := Some (Hawcx.message verify);
                          status := Some Status.error |} ;; Return))
   end)%async.

Definition inputs (st : State Step Values) : list Input :=
  if bool_decide (sessionStatus page = loading) then []
  else if credentials page then
    [ {| input_name := Some "email"; input_value := email (values st);
         input_disabled := bool_decide (step st = Otp) |} ]
    ++ (if bool_decide (step st = Otp) then
          [ {| input_name := Some "otp"; input_value := otp (values st);
               input_disabled := false |} ]
        else [])
  else [].

Definition handleChange (n v : string) (vs : Values) : Values :=
  if String.eqb n "email" then {| email := v; otp := otp vs |}
  else if String.eqb n "otp" then {| email := email vs; otp := v |}
  else vs.

Definition component : Component Step Values :=
  Build_Component onSubmit inputs handleChange.

Definition init : State Step Values :=
  {| step := Email; values := initialValues;
     recaptchaToken := ""; message := initialMessage query |}.
End Body.

End Login.

(** The first provider call a body suspends on. *)
Fixpoint first_call {Step} (p : Async Step) : option Hawcx.Call :=
  match p with
  | Return => None
  | Do _ k => first_call k
  | Await c _ => Some c
  end.

(** ** Scenarios *)

(** Provider answers: success with a token, success without one, failure. *)
Definition answer_token (tk : string) : Hawcx.AuthResult :=
  {| Hawcx.success := true; Hawcx.message := "";
     Hawcx.data := Some {| Hawcx.access_token := Some tk |} |}.

Definition answer_challenge : Hawcx.AuthResult :=
  {| Hawcx.success := true; Hawcx.message := ""; Hawcx.data := None |}.

Definition answer_failure (msg : string) : Hawcx.AuthResult :=
  {| Hawcx.success := false; Hawcx.message := msg; Hawcx.data := None |}.

(** A provider that challenges every [signIn] and [signUp] and answers
    every [verifyOTP] with the token [tk]. *)
Definition two_phase_provider (tk : string) : Provider :=
  λ cs, match last cs with
        | Some (Hawcx.verifyOTP _) => answer_token tk
        | _ => answer_challenge
        end.

(** The login page of a signed-out visitor, with the credentials form. *)
Definition form_page : Login.Page :=
  {| Login.sessionStatus := Login.unauthenticated;
     Login.credentials := true |}.

(** A login page reached without query parameters. *)
Definition plain_query : Login.Query :=
  {| Login.error := None; Login.success := None; Login.token := None |}.

(** The login form with an address typed in, before and after the
    challenge. *)
Definition login_with_email : State Login.Step Login.Values :=
  {| step := Login.Email;
     values := {| Login.email := "a@b.com"; Login.otp := "" |};
     recaptchaToken := ""; message := no_message |}.

Definition login_awaiting_otp : State Login.Step Login.Values :=
  {| step := Login.Otp;
     values := {| Login.email := "a@b.com"; Login.otp := "123456" |};
     recaptchaToken := ""; message := no_message |}.

(** The signup form filled in, in a given step. *)
Definition join_filled (s : Join.Step) : State Join.Step Join.Values :=
  {| step := s;
     values := {| Join.name := "Ann"; Join.email := "a@b.com";
                  Join.otp := "123456"; Join.team := "core" |};
     recaptchaToken := ""; message := no_message |}.

(** ** Readings of the specification that the forms are checked against *)

(** "In every flow variant, a successful [verifyOTP] that carries a token
    has the token persisted to the session store." *)
Definition persists_verified_token {Step Values}
    (C : Component Step Values) : Prop :=
  ∀ (provider : Provider) st w otp tk,
    first_call (onSubmit C st) = Some (Hawcx.verifyOTP otp) →
    let verify := provider (calls w ++ [Hawcx.verifyOTP otp]) in
    Hawcx.success verify = true →
    Hawcx.data_access_token verify = Some tk →
    tk ≠ "" →
    sessionStorage (handle provider C Submit (st, w)).2 !! "access_token"
    = Some tk.

(** "Per flow instance, the session token store is written at most once." *)
Definition written_at_most_once {Step Values}
    (C : Component Step Values) (init : State Step Values) : Prop :=
  ∀ (provider : Provider) (evs : list UserEvent),
    length (writes (run provider C evs (init, empty_world)).2) ≤ 1.

(** Two states of a form and its surroundings that agree on everything but
    the captured CAPTCHA token. *)
Definition same_but_captcha {Step Values}
    (σ1 σ2 : State Step Values * World Step) : Prop :=
  step σ1.1 = step σ2.1 ∧ values σ1.1 = values σ2.1
  ∧ message σ1.1 = message σ2.1 ∧ σ1.2 = σ2.2.

(** Two runs that differ only in the CAPTCHA tokens agree once these are
    erased. *)
Definition erase_captcha (ev : UserEvent) : UserEvent :=
  match ev with
  | Captcha _ => Captcha ""
  | _ => ev
  end.

(** ** lib/hawcx.ts *)

Module HawcxSdk.

Section Sdk.
(** What [HawcxInitializer.init] resolves to is opaque to the application. *)
Variable Instance : Type.

(** [HawcxInitializer.init(apiKey)] resolves, to an instance or to a falsy
    value, or rejects. *)
Inductive InitResult :=
| resolved (v : option Instance)
| rejected (reason : string).

(** The state of the module: the variable [authInstance], and the keys
    [init] was called with so far. *)
Record ModuleState := {
  authInstance : option Instance;
  inits : list string
}.

(** How a call of [getHawcxAuth] ends. *)
Inductive Outcome :=
| returned (v : option Instance)
| threw (msg : string)
| import_rejected (reason : string)
| init_rejected (reason : string).

(** The SDK: what [init] answers, given the keys of the earlier calls. *)
Variable init : list string → string → InitResult.

(** [process.env.NEXT_PUBLIC_HAWCX_API_KEY || 'YOUR_API_KEY'] *)
Definition apiKey (NEXT_PUBLIC_HAWCX_API_KEY : option string) : string :=
  if truthy_opt NEXT_PUBLIC_HAWCX_API_KEY
  then to_string NEXT_PUBLIC_HAWCX_API_KEY
  else "YOUR_API_KEY".

(** The part the two versions share: [if (!authInstance) { ... }
    return authInstance]. *)
Definition initialize (env_key : option string) (m : ModuleState)
    : Outcome * ModuleState :=
  match authInstance m with
  | Some i => (returned (Some i), m)
  | None =>
      let key := apiKey env_key in
      match init (inits m) key with
      | resolved v =>
          (returned v, {| authInstance := v; inits := inits m ++ [key] |})
      | rejected reason =>
          (init_rejected reason,
           {| authInstance := None; inits := inits m ++ [key] |})
      end
  end.

(** [getHawcxAuth] of lib/hawcx.ts.  [window] is [typeof window !==
    'undefined']; [import_failure] is the reason the dynamic [import] of the
    SDK rejects with, if it does. *)
Definition getHawcxAuth (window : bool) (import_failure : option string)
    (env_key : option string) (m : ModuleState) : Outcome * ModuleState :=
  if negb window then
    (threw "Hawcx SDK can only be initialized in the browser", m)
  else
    match authInstance m with
    | Some i => (returned (Some i), m)
    | None =>
        match import_failure with
        | Some reason => (import_rejected reason, m)
        | None => initialize env_key m
        end
    end.

(** [getHawcxAuth] of the version that imports the SDK statically: no
    check of [window], no dynamic [import]. *)
Definition getHawcxAuth_static (env_key : option string) (m : ModuleState)
    : Outcome * ModuleState :=
  initialize env_key m.

(** [n] calls one after the other, each awaited to its end before the next
    is made, with the outcome of each. *)
Fixpoint calls_in_a_row (window : bool) (import_failure env_key : option string)
    (n : nat) (m : ModuleState) : list Outcome * ModuleState :=
  match n with
  | 0 => ([], m)
  | S n =>
      let (o, m') := getHawcxAuth window import_failure env_key m in
      let (os, m'') := calls_in_a_row window import_failure env_key n m' in
      (o :: os, m'')
  end.

Definition fresh : ModuleState := {| authInstance := None; inits := [] |}.

(** *** Calls that overlap

    A call that finds [authInstance] unset is suspended twice before it
    assigns it: at [await import(...)] and at
    [await HawcxInitializer.init(apiKey)].  Other calls may be made, and
    resumed, in between. *)

(** Where a call that has not ended is suspended. *)
Inductive Suspended :=
| at_import
| at_init.

(** The module, the calls that are suspended, and the outcomes of the calls
    that have ended, in the order they ended. *)
Record Running := {
  sdk_module : ModuleState;
  suspended : list Suspended;
  outcomes : list Outcome
}.

(** What happens to the module: [getHawcxAuth()] is called; the [import]
    that the [i]-th suspended call awaits resolves, or rejects with a reason;
    the [init] that it awaits resolves or rejects. *)
Inductive SdkEvent :=
| call
| import_settles (i : nat) (failure : option string)
| init_settles (i : nat) (r : InitResult).

Definition ends (o : Outcome) (ρ : Running) : list Outcome :=
  outcomes ρ ++ [o].

Definition sdk_step (window : bool) (env_key : option string)
    (e : SdkEvent) (ρ : Running) : Running :=
  match e with
  | call =>
      if negb window then
        {| sdk_module := sdk_module ρ; suspended := suspended ρ;
           outcomes :=
             ends (threw "Hawcx SDK can only be initialized in the browser")
               ρ |}
      else
        match authInstance (sdk_module ρ) with
        | Some i =>
            {| sdk_module := sdk_module ρ; suspended := suspended ρ;
               outcomes := ends (returned (Some i)) ρ |}
        | None =>
            {| sdk_module := sdk_module ρ;
               suspended := suspended ρ ++ [at_import];
               outcomes := outcomes ρ |}
        end
  | import_settles i failure =>
      match suspended ρ !! i with
      | Some at_import =>
          match failure with
          | Some reason =>
              {| sdk_module := sdk_module ρ;
                 suspended := delete i (suspended ρ);
                 outcomes := ends (import_rejected reason) ρ |}
          | None =>
              (* [init(apiKey)] is called, and awaited *)
              {| sdk_module :=
                   {| authInstance := authInstance (sdk_module ρ);
                      inits := inits (sdk_module ρ) ++ [apiKey env_key] |};
                 suspended := <[i := at_init]> (suspended ρ);
                 outcomes := outcomes ρ |}
          end
      | _ => ρ
      end
  | init_settles i r =>
      match suspended ρ !! i with
      | Some at_init =>
          match r with
          | resolved v =>
              (* [authInstance = v; return authInstance] *)
              {| sdk_module :=
                   {| authInstance := v; inits := inits (sdk_module ρ) |};
                 suspended := delete i (suspended ρ);
                 outcomes := ends (returned v) ρ |}
          | rejected reason =>
              {| sdk_module := sdk_module ρ;
                 suspended := delete i (suspended ρ);
                 outcomes := ends (init_rejected reason) ρ |}
          end
      | _ => ρ
      end
  end.

Definition sdk_run (window : bool) (env_key : option string)
    (es : list SdkEvent) (ρ : Running) : Running :=
  foldl (λ ρ e, sdk_step window env_key e ρ) ρ es.

(** A module with no call under way. *)
Definition idle (m : ModuleState) : Running :=
  {| sdk_module := m; suspended := []; outcomes := [] |}.

Definition is_call (e : SdkEvent) : bool :=
  match e with call => true | _ => false end.

(** One call awaited to its end: what the SDK answers is what [init]
    answers. *)
Definition awaited_call (import_failure env_key : option string)
    (m : ModuleState) : list SdkEvent :=
  [ call; import_settles 0 import_failure;
    init_settles 0 (init (inits m) (apiKey env_key)) ].
End Sdk.

Arguments resolved {Instance} v.
Arguments rejected {Instance} reason.
Arguments returned {Instance} v.
Arguments threw {Instance} msg.
Arguments import_rejected {Instance} reason.
Arguments init_rejected {Instance} reason.
Arguments authInstance {Instance} m.
Arguments inits {Instance} m.
Arguments fresh {Instance}.
Arguments initialize {Instance} init env_key m.
Arguments getHawcxAuth {Instance} init window import_failure env_key m.
Arguments getHawcxAuth_static {Instance} init env_key m.
Arguments calls_in_a_row {Instance} init window import_failure env_key n m.
Arguments Running : clear implicits.
Arguments SdkEvent : clear implicits.
Arguments sdk_module {Instance} _.
Arguments suspended {Instance} _.
Arguments outcomes {Instance} _.
Arguments call {Instance}.
Arguments import_settles {Instance} i failure.
Arguments init_settles {Instance} i r.
Arguments ends {Instance} o ρ.
Arguments sdk_step {Instance} window env_key e ρ.
Arguments sdk_run {Instance} window env_key es ρ.
Arguments idle {Instance} m.
Arguments is_call {Instance} e.
Arguments awaited_call {Instance} init import_failure env_key m.

End HawcxSdk.

(** ** The rest of the login page *)

Module LoginPage.

(** The alert above the form:
    [message.text && message.status && <Alert>{t(message.text)}</Alert>]. *)
Definition alert (t : string → string) (m : Message)
    : option (Status.ComponentStatus * string) :=
  match text m, status m with
  | Some txt, Some s => if truthy txt then Some (s, t txt) else None
  | _, _ => None
  end.

(** [params]: the query string the links of the page carry on. *)
Definition params (token : option string) : string :=
  if truthy_opt token then "?token=" +:+ to_string token else "".

Definition magicLinkHref (token : option string) : string :=
  "/auth/magic-link" +:+ params token.

Definition joinHref (token : option string) : string :=
  "/auth/join" +:+ params token.

End LoginPage.

(** ** Submitting through Formik *)

(** What reaches a form from the user.  A press of the submit button comes
    with whether [await getHawcxAuth()], the first statement of every
    [onSubmit], yields the provider handle: it throws outside the browser,
    and it rejects when the SDK does not load or does not initialise. *)
Inductive FormEvent :=
| change (name value : string)
| captcha (token : string)
| press (sdk : bool).

Section Formik.
Context {Step Values : Type}.
(** The schema as the form runs it: on the values alone. *)
Variable validate : Values → gmap string Yup.Error.
Variable provider : Provider.
Variable C : Component Step Values.

(** What an event that is not a submission does to the cells. *)
Definition edit (ev : FormEvent) (st : State Step Values)
    : State Step Values :=
  match ev with
  | change name value =>
      if editable C st name then
        {| step := step st; values := handleChange C name value (values st);
           recaptchaToken := recaptchaToken st; message := message st |}
      else st
  | captcha token => setRecaptchaToken token st
  | press _ => st
  end.

(** [formik.handleSubmit], up to the body of [onSubmit]: the body is reached
    when the values pass the schema and the handle is there.  Whether an
    earlier submission is still under way is not looked at. *)
Definition reaches_onSubmit (sdk : bool) (st : State Step Values) : bool :=
  bool_decide (validate (values st) = ∅) && sdk.

(** The events of a form, each submission awaited to its end before the
    next event. *)
Definition handle_form (ev : FormEvent)
    (σ : State Step Values * World Step) : State Step Values * World Step :=
  match ev with
  | press sdk =>
      if reaches_onSubmit sdk σ.1 then handle provider C Submit σ else σ
  | _ => (edit ev σ.1, σ.2)
  end.

Definition run_form (evs : list FormEvent)
    (σ : State Step Values * World Step) : State Step Values * World Step :=
  foldl (λ σ ev, handle_form ev σ) σ evs.

(** *** Submissions in flight *)

(** A submission suspended at the [await] of a provider call: the call, and
    what the body does with its answer. *)
Record Flight := {
  flight_call : Hawcx.Call;
  flight_k : Hawcx.AuthResult → Async Step
}.

(** Running a body until it suspends or ends. *)
Fixpoint start (p : Async Step) (st : State Step Values) (w : World Step)
    : State Step Values * World Step * option Flight :=
  match p with
  | Return => (st, w, None)
  | Do c k => start k (apply_state c st) (apply_world c w)
  | Await c k =>
      (st, call_world c w, Some {| flight_call := c; flight_k := k |})
  end.

(** A mounted form: its cells, its surroundings, the submissions that wait
    for the provider, and Formik's [isSubmitting]. *)
Record Mounted := {
  cells : State Step Values;
  world : World Step;
  in_flight : list Flight;
  isSubmitting : bool
}.

(** The events of a mounted form: those of the user, and the provider
    answering the [i]-th call in flight. *)
Inductive PageEvent :=
| user (ev : FormEvent)
| settle (i : nat) (res : Hawcx.AuthResult).

(** A body runs on, next to the submissions [others]; [isSubmitting] is
    reset when it ends. *)
Definition advance (p : Async Step) (others : list Flight)
    (submitting : bool) (π : Mounted) : Mounted :=
  let '(st, w, f) := start p (cells π) (world π) in
  {| cells := st; world := w; in_flight := others ++ option_list f;
     isSubmitting := match f with Some _ => submitting | None => false end |}.

Definition step_mounted (e : PageEvent) (π : Mounted) : Mounted :=
  match e with
  | user (press sdk) =>
      (* [isSubmitting] is set, and reset if the submission ends here *)
      if reaches_onSubmit sdk (cells π) then
        advance (onSubmit C (cells π)) (in_flight π) true π
      else
        {| cells := cells π; world := world π; in_flight := in_flight π;
           isSubmitting := false |}
  | user ev =>
      {| cells := edit ev (cells π); world := world π;
         in_flight := in_flight π; isSubmitting := isSubmitting π |}
  | settle i res =>
      match in_flight π !! i with
      | Some f =>
          advance (flight_k f res) (delete i (in_flight π)) (isSubmitting π) π
      | None => π
      end
  end.

Definition run_mounted (es : list PageEvent) (π : Mounted) : Mounted :=
  foldl (λ π e, step_mounted e π) π es.

(** The form as it is mounted, in a fresh session. *)
Definition mount (st : State Step Values) : Mounted :=
  {| cells := st; world := empty_world; in_flight := [];
     isSubmitting := false |}.
End Formik.

Arguments Flight : clear implicits.
Arguments Mounted : clear implicits.

(** The submit button of the three forms: [loading={formik.isSubmitting}],
    and no [disabled]. *)
Record Button := { loading : bool; disabled : bool }.

Definition submitButton {Step Values} (π : Mounted Step Values) : Button :=
  {| loading := isSubmitting π; disabled := false |}.

(** ** The order of the provider calls *)

Definition is_verifyOTP (c : Hawcx.Call) : bool :=
  match c with Hawcx.verifyOTP _ => true | _ => false end.

Definition is_signUp (c : Hawcx.Call) : bool :=
  match c with Hawcx.signUp _ => true | _ => false end.



(** The arguments a validated form hands to the provider: an address that
    passed the schema, and any code. *)
Definition validated_call (P : MaxLengthPolicies) (rEmail : string → bool)
    (c : Hawcx.Call) : Prop :=
  match c with
  | Hawcx.signUp e | Hawcx.signIn e =>
      e ≠ "" ∧ rEmail e = true ∧ utf16_length e ≤ policy_email P
  | Hawcx.verifyOTP _ => True
  end.


(** ** Further readings of the specification *)

(** "The failure message is surfaced verbatim to the user", on the login
    page: after a failed call the alert shows the message of the answer. *)
Definition failure_shown_verbatim (t : string → string)
    (C : Component Login.Step Login.Values) : Prop :=
  ∀ (provider : Provider) st w c,
    first_call (onSubmit C st) = Some c →
    let res := provider (calls w ++ [c]) in
    Hawcx.success res = false →
    LoginPage.alert t (message (handle provider C Submit (st, w)).1)
    = Some (Status.error, Hawcx.message res).

(** "At most one submission is ever in flight at a time." *)
Definition one_in_flight {Step Values}
    (validate : Values → gmap string Yup.Error)
    (C : Component Step Values) (init : State Step Values) : Prop :=
  ∀ es : list PageEvent,
    length (in_flight (run_mounted validate C es (mount init))) ≤ 1.

(** * Properties *)

(** ** Truthiness *)

Lemma truthy_true s : truthy s = true ↔ s ≠ "".
Proof.
  unfold truthy. destruct (String.eqb_spec s ""); simpl; split; congruence.
Qed.

Lemma truthy_opt_true o : truthy_opt o = true ↔ ∃ s, o = Some s ∧ s ≠ "".
Proof.
  destruct o as [s|]; simpl.
  - rewrite truthy_true. split; [eauto | intros (s' & [= ->] & ?); done].
  - split; [done | intros (s & ? & _); done].
Qed.

Lemma truthy_opt_Some s : s ≠ "" → truthy_opt (Some s) = true.
Proof. intros. apply truthy_opt_true. eauto. Qed.

(** ** Validation *)

Lemma lookup_field name e k :
  Yup.field name e !! k = if decide (name = k) then e else None.
Proof.
  unfold Yup.field. destruct e; case_decide; subst.
  - apply lookup_singleton_eq.
  - by apply lookup_singleton_ne.
  - apply lookup_empty.
  - apply lookup_empty.
Qed.

(** Reading one field of a validation result. *)
Ltac lookup_errors :=
  repeat rewrite lookup_union; repeat rewrite lookup_field; simpl.

Lemma validate_when_otp {K} rEmail (key : K) (is_ : K → bool) v :
  Yup.validate rEmail
    (Yup.when key is_ (λ s, Yup.required s) (λ s, Yup.notRequired s)
       Yup.string) v
  = if is_ key && String.eqb v "" then Some Yup.required_error else None.
Proof.
  unfold Yup.validate, Yup.when.
  by destruct (is_ key), (String.eqb v "").
Qed.

Lemma option_union_None_l {A} (o : option A) : None ∪ o = o.
Proof. by destruct o. Qed.

Lemma option_union_None_r {A} (o : option A) : o ∪ None = o.
Proof. by destruct o. Qed.

Lemma Join_otp_error P r step values :
  Join.JoinUserSchema P r step values !! "otp"
  = if bool_decide (step = Join.Otp) && String.eqb (Join.otp values) ""
    then Some Yup.required_error else None.
Proof.
  unfold Join.JoinUserSchema. lookup_errors.
  by rewrite !option_union_None_l, option_union_None_r, validate_when_otp.
Qed.

Lemma JoinWithInvitation_otp_error P r step values :
  JoinWithInvitation.JoinUserSchema P r step values !! "otp"
  = if bool_decide (step = JoinWithInvitation.Otp)
       && String.eqb (JoinWithInvitation.otp values) ""
    then Some Yup.required_error else None.
Proof.
  unfold JoinWithInvitation.JoinUserSchema. lookup_errors.
  by rewrite !option_union_None_l, !option_union_None_r, validate_when_otp.
Qed.

Lemma Login_otp_error P r step values :
  Login.validationSchema P r step values !! "otp"
  = if bool_decide (step = Login.Otp) && String.eqb (Login.otp values) ""
    then Some Yup.required_error else None.
Proof.
  unfold Login.validationSchema. lookup_errors.
  by rewrite !option_union_None_l, validate_when_otp.
Qed.

(** What the schemas attempt.  Resolved in a context that holds the step,
    each of the three reports [otp] as required, when it is left empty,
    exactly in the step ['otp']; in the first step it reports nothing on
    [otp], whatever the input holds. *)
Theorem otp_required_iff_verify_step
    (P : MaxLengthPolicies) (rEmail : string → bool) :
  (∀ s n e tm,
     reports_required
       (Join.JoinUserSchema P rEmail s
          {| Join.name := n; Join.email := e; Join.otp := "";
             Join.team := tm |})
       "otp"
     ↔ s = Join.Otp)
  ∧ (∀ values, Join.JoinUserSchema P rEmail Join.Form values !! "otp" = None)
  ∧ (∀ s n e b,
       reports_required
         (JoinWithInvitation.JoinUserSchema P rEmail s
            {| JoinWithInvitation.name := n; JoinWithInvitation.email := e;
               JoinWithInvitation.otp := "";
               JoinWithInvitation.sentViaEmail := b |})
         "otp"
       ↔ s = JoinWithInvitation.Otp)
  ∧ (∀ values,
       JoinWithInvitation.JoinUserSchema P rEmail JoinWithInvitation.Form values
         !! "otp" = None)
  ∧ (∀ s e,
       reports_required
         (Login.validationSchema P rEmail s
            {| Login.email := e; Login.otp := "" |})
         "otp"
       ↔ s = Login.Otp)
  ∧ (∀ values,
       Login.validationSchema P rEmail Login.Email values !! "otp" = None).
Proof.
  unfold reports_required.
  repeat split; intros;
    rewrite ?Join_otp_error, ?JoinWithInvitation_otp_error, ?Login_otp_error
      in *;
    simpl in *; try done; by destruct s.
Qed.

(** *** The [email] field *)

Lemma Join_email_required P r step n o tm :
  reports_required
    (Join.JoinUserSchema P r step
       {| Join.name := n; Join.email := ""; Join.otp := o; Join.team := tm |})
    "email".
Proof.
  unfold reports_required, Join.JoinUserSchema. lookup_errors.
  reflexivity.
Qed.

Lemma Login_email_required P r step o :
  reports_required
    (Login.validationSchema P r step {| Login.email := ""; Login.otp := o |})
    "email".
Proof. unfold reports_required, Login.validationSchema. by lookup_errors. Qed.

Lemma JoinWithInvitation_email_error P r step values :
  JoinWithInvitation.JoinUserSchema P r step values !! "email"
  = Yup.validate r
      (if JoinWithInvitation.sentViaEmail values
       then Yup.string |> Yup.max (policy_email P)
       else Yup.string |> Yup.max (policy_email P) |> Yup.required |> Yup.email
                       |> Yup.max (policy_email P))
      (JoinWithInvitation.email values).
Proof.
  unfold JoinWithInvitation.JoinUserSchema. lookup_errors.
  rewrite !option_union_None_l. unfold Yup.when.
  by destruct (JoinWithInvitation.sentViaEmail values).
Qed.

(** The schema of the invitation form asks for [email] when the value
    [sentViaEmail] it validates is false, and not when it is true. *)
Lemma JoinWithInvitation_email_required_iff P r step n o b :
  reports_required
    (JoinWithInvitation.JoinUserSchema P r step
       {| JoinWithInvitation.name := n; JoinWithInvitation.email := "";
          JoinWithInvitation.otp := o; JoinWithInvitation.sentViaEmail := b |})
    "email"
  ↔ b = false.
Proof.
  unfold reports_required. rewrite JoinWithInvitation_email_error.
  by destruct b.
Qed.

(** [x || true]: the value the form validates is true for every
    invitation, sent by e-mail or not, loaded or not. *)
Lemma initialValues_sentViaEmail invitation :
  JoinWithInvitation.sentViaEmail (JoinWithInvitation.initialValues invitation)
  = true.
Proof. unfold JoinWithInvitation.initialValues. simpl. apply orb_true_r. Qed.

Lemma handleChange_sentViaEmail n v vs :
  JoinWithInvitation.sentViaEmail (JoinWithInvitation.handleChange n v vs)
  = JoinWithInvitation.sentViaEmail vs.
Proof.
  unfold JoinWithInvitation.handleChange.
  repeat (case_match; simpl; try done).
Qed.

(** With an invitation that was sent by e-mail the address is shown in a
    disabled input without a name: no edit reaches [values.email]. *)
Lemma sentViaEmail_email_not_editable t inviteToken isLoading error e st :
  editable
    (JoinWithInvitation.component t inviteToken isLoading error
       (Some {| Invitation.email := e; Invitation.sentViaEmail := true |}))
    st "email" = false.
Proof.
  unfold editable. simpl.
  unfold JoinWithInvitation.inputs, JoinWithInvitation.render.
  destruct isLoading, error; simpl; try done.
  by case_bool_decide.
Qed.

(** C4. The invitation form, given an invitation that was not sent by
    e-mail: the [email] input is rendered editable, yet the schema does not
    ask for it, because [initialValues.sentViaEmail] is true all the same; the
    form left without an address validates on [email] and [signUp] is
    called with the empty string. *)
Theorem invitation_not_sent_by_email_not_required
    (P : MaxLengthPolicies) (rEmail : string → bool) (t : string → string)
    (inviteToken : string) (e : option string) (provider : Provider) :
  let invitation :=
    Some {| Invitation.email := e; Invitation.sentViaEmail := false |} in
  let C := JoinWithInvitation.component t inviteToken false None invitation in
  let σ := run provider C [Change "name" "Ann"]
             (JoinWithInvitation.init invitation, empty_world) in
  editable C (fst σ) "email" = true
  ∧ JoinWithInvitation.email (values (fst σ)) = ""
  ∧ JoinWithInvitation.sentViaEmail (values (fst σ)) = true
  ∧ JoinWithInvitation.JoinUserSchema P rEmail (step (fst σ)) (values (fst σ))
      !! "email" = None
  ∧ calls (snd (run provider C [Submit] σ)) = [Hawcx.signUp ""].
Proof.
  intros invitation C σ. split; [reflexivity|].
  split; [reflexivity|]. split; [reflexivity|]. split.
  - rewrite JoinWithInvitation_email_error. reflexivity.
  - vm_compute. by destruct (provider _) as [[] ? ?].
Qed.

(** ** The redirect target *)

(** C7. [redirectUrl] is the invitation page whenever the query carries a
    (non-empty) token, whatever the default, and the configured default
    otherwise. *)
Theorem redirectUrl_resolves
    (token : option string) (redirectIfAuthenticated : string) :
  (∀ tk, token = Some tk → tk ≠ "" →
     Login.redirectUrl token redirectIfAuthenticated = "/invitations/" +:+ tk)
  ∧ (token = None ∨ token = Some "" →
     Login.redirectUrl token redirectIfAuthenticated = redirectIfAuthenticated).
Proof.
  unfold Login.redirectUrl. split.
  - intros tk -> Htk. by rewrite truthy_opt_Some.
  - by intros [-> | ->].
Qed.

Lemma redirectUrl_resolves_witness :
  Login.redirectUrl (Some "INV1") "/dashboard" = "/invitations/INV1"
  ∧ Login.redirectUrl None "/dashboard" = "/dashboard".
Proof.
  split.
  - apply (proj1 (redirectUrl_resolves (Some "INV1") "/dashboard") "INV1");
      [reflexivity | discriminate].
  - apply (proj2 (redirectUrl_resolves None "/dashboard")). left. reflexivity.
Defined.

(** ** Submissions *)

Section Logs.
Context {Step : Type}.
Implicit Types (w : World Step) (l : list (Event Step)).

Lemma calls_extend s w l :
  calls {| sessionStorage := s; log := log w ++ l |}
  = calls w ++ omap event_call l.
Proof. unfold calls. simpl. apply omap_app. Qed.

Lemma calls_call_world c w : calls (call_world c w) = calls w ++ [c].
Proof. unfold call_world. by rewrite calls_extend. Qed.

Lemma calls_apply_world (c : Cmd Step) w : calls (apply_world c w) = calls w.
Proof.
  unfold apply_world. rewrite calls_extend. simpl. by rewrite app_nil_r.
Qed.

Context {Values : Type}.
Implicit Types (st : State Step Values) (p : Async Step).

Lemma exec_Return provider st w : exec provider Return st w = (st, w).
Proof. reflexivity. Qed.

Lemma exec_Do provider c k st w :
  exec provider (Do c k) st w
  = exec provider k (apply_state c st) (apply_world c w).
Proof. reflexivity. Qed.

Lemma exec_Await provider c k st w :
  exec provider (Await c k) st w
  = exec provider (k (provider (calls w ++ [c]))) st (call_world c w).
Proof. simpl. by rewrite calls_call_world. Qed.

(** No statement of a body touches Formik's values. *)
Lemma exec_values provider p :
  ∀ st w, values (exec provider p st w).1 = values st.
Proof.
  induction p as [|c k IH|c k IH]; intros st w.
  - done.
  - rewrite exec_Do, IH. by destruct c.
  - rewrite exec_Await. apply IH.
Qed.
End Logs.

Arguments exec : simpl never.
Arguments handle : simpl never.

(** Unfolding one submission: the body is run statement by statement up to
    the provider's answer, on which the proofs then split; [finish_logs]
    puts the resulting log in the form [log w ++ _]. *)
Ltac exec_steps :=
  repeat first
    [ rewrite exec_Do | rewrite exec_Await | rewrite exec_Return
    | rewrite calls_apply_world ].

Ltac submit_step :=
  repeat match goal with
  | st : State _ _ |- _ => destruct st as [? ? ? ?]; simpl in *; subst
  end;
  unfold handle; simpl;
  unfold Join.onSubmit, JoinWithInvitation.onSubmit, Login.onSubmit; simpl;
  exec_steps.

Ltac finish_logs :=
  unfold apply_world, call_world, apply_state; simpl;
  repeat rewrite <- app_assoc; simpl; try reflexivity.

(** What one submission of the login form does, by step and by answer. *)
Lemma Login_submit_email provider q d page st w :
  step st = Login.Email →
  let signIn := Hawcx.signIn (Login.email (values st)) in
  let res := provider (calls w ++ [signIn]) in
  handle provider (Login.component q d page) Submit (st, w)
  = if Hawcx.success res && truthy_opt (Hawcx.data_access_token res) then
      ({| step := Login.Email; values := values st;
          recaptchaToken := recaptchaToken st; message := no_message |},
       {| sessionStorage :=
            <["access_token" := to_string (Hawcx.data_access_token res)]>
              (sessionStorage w);
          log := log w ++
            [ran (setMessage no_message); called signIn;
             ran (sessionStorage_setItem "access_token"
                    (to_string (Hawcx.data_access_token res)));
             ran (router_push (Login.redirectUrl (Login.token q) d))] |})
    else if Hawcx.success res then
      ({| step := Login.Otp; values := values st;
          recaptchaToken := recaptchaToken st; message := no_message |},
       {| sessionStorage := sessionStorage w;
          log := log w ++
            [ran (setMessage no_message); called signIn;
             ran (setStep Login.Otp)] |})
    else
      ({| step := Login.Email; values := values st;
          recaptchaToken := recaptchaToken st;
          message := {| text := Some (Hawcx.message res);
                        status := Some Status.error |} |},
       {| sessionStorage := sessionStorage w;
          log := log w ++
            [ran (setMessage no_message); called signIn;
             ran (setMessage {| text := Some (Hawcx.message res);
                                status := Some Status.error |})] |}).
Proof.
  intros Hstep. submit_step.
  destruct (provider _) as [succ msg dat]; simpl.
  destruct succ, (truthy_opt _); simpl; exec_steps; finish_logs.
Qed.

Lemma Login_submit_otp provider q d page st w :
  step st = Login.Otp →
  let verifyOTP := Hawcx.verifyOTP (Login.otp (values st)) in
  let verify := provider (calls w ++ [verifyOTP]) in
  let cleared :=
    {| step := Login.Otp; values := values st;
       recaptchaToken := recaptchaToken st; message := no_message |} in
  handle provider (Login.component q d page) Submit (st, w)
  = if Hawcx.success verify then
      if truthy_opt (Hawcx.data_access_token verify) then
        (cleared,
         {| sessionStorage :=
              <["access_token" := to_string (Hawcx.data_access_token verify)]>
                (sessionStorage w);
            log := log w ++
              [ran (setMessage no_message); called verifyOTP;
               ran (sessionStorage_setItem "access_token"
                      (to_string (Hawcx.data_access_token verify)));
               ran (router_push (Login.redirectUrl (Login.token q) d))] |})
      else
        (cleared,
         {| sessionStorage := sessionStorage w;
            log := log w ++
              [ran (setMessage no_message); called verifyOTP;
               ran (router_push (Login.redirectUrl (Login.token q) d))] |})
    else
      ({| step := Login.Otp; values := values st;
          recaptchaToken := recaptchaToken st;
          message := {| text := Some (Hawcx.message verify);
                        status := Some Status.error |} |},
       {| sessionStorage := sessionStorage w;
          log := log w ++
            [ran (setMessage no_message); called verifyOTP;
             ran (setMessage {| text := Some (Hawcx.message verify);
                                status := Some Status.error |})] |}).
Proof.
  intros Hstep. submit_step.
  destruct (provider _) as [succ msg dat]; simpl.
  destruct succ; [destruct (truthy_opt _)|]; simpl; exec_steps; finish_logs.
Qed.

(** The two signup forms. *)
Lemma Join_submit_form provider t st w :
  step st = Join.Form →
  let signUp := Hawcx.signUp (Join.email (values st)) in
  let res := provider (calls w ++ [signUp]) in
  handle provider (Join.component t) Submit (st, w)
  = if Hawcx.success res then
      ({| step := Join.Otp; values := values st;
          recaptchaToken := recaptchaToken st; message := message st |},
       {| sessionStorage := sessionStorage w;
          log := log w ++ [called signUp; ran (setStep Join.Otp)] |})
    else
      (st,
       {| sessionStorage := sessionStorage w;
          log := log w ++
            [called signUp; ran (toast_error (Hawcx.message res))] |}).
Proof.
  intros Hstep. submit_step.
  destruct (provider _) as [succ msg dat]; simpl.
  destruct succ; simpl; exec_steps; finish_logs.
Qed.

Lemma Join_submit_otp provider t st w :
  step st = Join.Otp →
  let verifyOTP := Hawcx.verifyOTP (Join.otp (values st)) in
  let verify := provider (calls w ++ [verifyOTP]) in
  handle provider (Join.component t) Submit (st, w)
  = (st,
     {| sessionStorage := sessionStorage w;
        log := log w ++
          if Hawcx.success verify then
            [called verifyOTP; ran (toast_success (t "successfully-joined"));
             ran (router_push "/auth/login")]
          else
            [called verifyOTP; ran (toast_error (Hawcx.message verify))] |}).
Proof.
  intros Hstep. submit_step.
  destruct (provider _) as [succ msg dat]; simpl.
  destruct succ; simpl; exec_steps; finish_logs.
Qed.

Lemma JoinWithInvitation_submit_form provider t tk l e i st w :
  step st = JoinWithInvitation.Form →
  let signUp := Hawcx.signUp (JoinWithInvitation.email (values st)) in
  let res := provider (calls w ++ [signUp]) in
  handle provider (JoinWithInvitation.component t tk l e i) Submit (st, w)
  = if Hawcx.success res then
      ({| step := JoinWithInvitation.Otp; values := values st;
          recaptchaToken := recaptchaToken st; message := message st |},
       {| sessionStorage := sessionStorage w;
          log := log w ++
            [called signUp; ran (setStep JoinWithInvitation.Otp)] |})
    else
      (st,
       {| sessionStorage := sessionStorage w;
          log := log w ++
            [called signUp; ran (toast_error (Hawcx.message res))] |}).
Proof.
  intros Hstep. submit_step.
  destruct (provider _) as [succ msg dat]; simpl.
  destruct succ; simpl; exec_steps; finish_logs.
Qed.

Lemma JoinWithInvitation_submit_otp provider t tk l e i st w :
  step st = JoinWithInvitation.Otp →
  let verifyOTP := Hawcx.verifyOTP (JoinWithInvitation.otp (values st)) in
  let verify := provider (calls w ++ [verifyOTP]) in
  handle provider (JoinWithInvitation.component t tk l e i) Submit (st, w)
  = (st,
     {| sessionStorage := sessionStorage w;
        log := log w ++
          if Hawcx.success verify then
            [called verifyOTP; ran (toast_success (t "successfully-joined"));
             ran (router_push ("/auth/login?token=" +:+ tk))]
          else
            [called verifyOTP; ran (toast_error (Hawcx.message verify))] |}).
Proof.
  intros Hstep. submit_step.
  destruct (provider _) as [succ msg dat]; simpl.
  destruct succ; simpl; exec_steps; finish_logs.
Qed.

(** The invitation form validates [sentViaEmail = true] in every state it
    can reach, whatever the invitation says. *)
Lemma JoinWithInvitation_run_sentViaEmail provider t tk l e i evs :
  ∀ st w,
    JoinWithInvitation.sentViaEmail (values st) = true →
    JoinWithInvitation.sentViaEmail
      (values (run provider (JoinWithInvitation.component t tk l e i) evs
                 (st, w)).1) = true.
Proof.
  induction evs as [|ev evs IH]; intros st w Hst; [done|].
  simpl.
  destruct (handle provider _ ev (st, w)) as [st' w'] eqn:Hev.
  apply IH. destruct ev as [n v|tok|]; unfold handle in Hev; simpl in Hev.
  - destruct (editable _ _ _); injection Hev as <- <-; [|done].
    simpl. by rewrite handleChange_sentViaEmail.
  - by injection Hev as <- <-.
  - rewrite <- Hst.
    replace st' with
      (exec provider (JoinWithInvitation.onSubmit t tk st) st w).1
      by by rewrite Hev.
    by rewrite exec_values.
Qed.

(** The call a submission makes is decided by the step alone. *)
Lemma Join_first_call t st :
  first_call (Join.onSubmit t st)
  = Some (match step st with
          | Join.Form => Hawcx.signUp (Join.email (values st))
          | Join.Otp => Hawcx.verifyOTP (Join.otp (values st))
          end).
Proof. unfold Join.onSubmit. by destruct (step st). Qed.

Lemma JoinWithInvitation_first_call t tk st :
  first_call (JoinWithInvitation.onSubmit t tk st)
  = Some (match step st with
          | JoinWithInvitation.Form =>
              Hawcx.signUp (JoinWithInvitation.email (values st))
          | JoinWithInvitation.Otp =>
              Hawcx.verifyOTP (JoinWithInvitation.otp (values st))
          end).
Proof. unfold JoinWithInvitation.onSubmit. by destruct (step st). Qed.

Lemma Login_first_call q d st :
  first_call (Login.onSubmit q d st)
  = Some (match step st with
          | Login.Email => Hawcx.signIn (Login.email (values st))
          | Login.Otp => Hawcx.verifyOTP (Login.otp (values st))
          end).
Proof. unfold Login.onSubmit. by destruct (step st). Qed.

(** C2. A submission of the login form in its first step, answered with
    success: with an access token, the token is stored under
    ["access_token"], the router is sent to [redirectUrl] and the step stays
    ['email'] (no [setStep] is executed); without one, the step becomes
    ['otp'] and nothing is stored. *)
Theorem login_request_step_success
    (provider : Provider) (q : Login.Query) (d : string) (page : Login.Page)
    (st : State Login.Step Login.Values) (w : World Login.Step) :
  step st = Login.Email →
  let signIn := Hawcx.signIn (Login.email (values st)) in
  let res := provider (calls w ++ [signIn]) in
  let σ := handle provider (Login.component q d page) Submit (st, w) in
  Hawcx.success res = true →
  (∀ tk, Hawcx.data_access_token res = Some tk → tk ≠ "" →
     sessionStorage σ.2 = <["access_token" := tk]> (sessionStorage w)
     ∧ log σ.2 = log w ++
         [ran (setMessage no_message); called signIn;
          ran (sessionStorage_setItem "access_token" tk);
          ran (router_push (Login.redirectUrl (Login.token q) d))]
     ∧ step σ.1 = Login.Email)
  ∧ (truthy_opt (Hawcx.data_access_token res) = false →
     sessionStorage σ.2 = sessionStorage w
     ∧ log σ.2 = log w ++
         [ran (setMessage no_message); called signIn; ran (setStep Login.Otp)]
     ∧ step σ.1 = Login.Otp).
Proof.
  intros Hstep signIn res σ Hsucc. subst σ.
  rewrite (Login_submit_email provider q d page st w Hstep).
  fold signIn. fold res. rewrite Hsucc. simpl. split.
  - intros tk Htk Hne. rewrite Htk, (truthy_opt_Some tk Hne). by simpl.
  - intros ->. by simpl.
Qed.

(** C6, as stated, fails on the login page: a failure whose message is
    empty is not shown at all, even where [t] leaves every message as it
    is. *)
Lemma login_empty_failure_message_not_shown :
  ¬ failure_shown_verbatim (λ key, key)
      (Login.component plain_query "/dashboard" form_page).
Proof.
  intros H.
  specialize (H (λ _, answer_failure "") login_with_email empty_world
                (Hawcx.signIn "a@b.com") eq_refl eq_refl).
  vm_compute in H. discriminate.
Qed.

(** C6, amended. A provider call answered with [success: false], in any
    form and in either step: the signup forms hand the message to
    [toast.error] as it came; the login page puts it in the [message] cell
    with the status ['error'], and its alert shows the translation [t] of
    the message, or nothing when the message is empty.  The step and the
    values are as before; nothing is stored; and the next submission makes
    the same provider call again. *)
Theorem provider_failure_keeps_phase (provider : Provider) :
  (∀ t st w c,
     first_call (Join.onSubmit t st) = Some c →
     let res := provider (calls w ++ [c]) in
     Hawcx.success res = false →
     let σ := handle provider (Join.component t) Submit (st, w) in
     σ = (st, {| sessionStorage := sessionStorage w;
                 log := log w ++
                   [called c; ran (toast_error (Hawcx.message res))] |})
     ∧ first_call (Join.onSubmit t σ.1) = Some c)
  ∧ (∀ t tk l e i st w c,
       first_call (JoinWithInvitation.onSubmit t tk st) = Some c →
       let res := provider (calls w ++ [c]) in
       Hawcx.success res = false →
       let σ := handle provider (JoinWithInvitation.component t tk l e i)
                  Submit (st, w) in
       σ = (st, {| sessionStorage := sessionStorage w;
                   log := log w ++
                     [called c; ran (toast_error (Hawcx.message res))] |})
       ∧ first_call (JoinWithInvitation.onSubmit t tk σ.1) = Some c)
  ∧ (∀ t q d page st w c,
       first_call (Login.onSubmit q d st) = Some c →
       let res := provider (calls w ++ [c]) in
       let shown := {| text := Some (Hawcx.message res);
                       status := Some Status.error |} in
       let σ := handle provider (Login.component q d page) Submit (st, w) in
       Hawcx.success res = false →
       σ = ({| step := step st; values := values st;
               recaptchaToken := recaptchaToken st; message := shown |},
            {| sessionStorage := sessionStorage w;
               log := log w ++
                 [ran (setMessage no_message); called c;
                  ran (setMessage shown)] |})
       ∧ LoginPage.alert t (message σ.1)
         = (if truthy (Hawcx.message res)
            then Some (Status.error, t (Hawcx.message res))
            else None)
       ∧ first_call (Login.onSubmit q d σ.1) = Some c).
Proof.
  split; [|split].
  - intros t st w c Hc res Hfail σ. subst res σ.
    pose proof Hc as Hc'. rewrite Join_first_call in Hc. injection Hc as <-.
    destruct (step st) eqn:Hstep.
    + rewrite (Join_submit_form provider t st w Hstep). simpl.
      by rewrite Hfail.
    + rewrite (Join_submit_otp provider t st w Hstep). simpl.
      by rewrite Hfail.
  - intros t tk l e i st w c Hc res Hfail σ. subst res σ.
    pose proof Hc as Hc'.
    rewrite JoinWithInvitation_first_call in Hc. injection Hc as <-.
    destruct (step st) eqn:Hstep.
    + rewrite (JoinWithInvitation_submit_form provider t tk l e i st w Hstep).
      simpl. by rewrite Hfail.
    + rewrite (JoinWithInvitation_submit_otp provider t tk l e i st w Hstep).
      simpl. by rewrite Hfail.
  - intros t q d page st w c Hc res shown σ Hfail. subst res shown σ.
    rewrite Login_first_call in Hc. injection Hc as <-.
    destruct (step st) eqn:Hstep.
    + rewrite (Login_submit_email provider q d page st w Hstep). simpl.
      rewrite Hfail. simpl. by repeat split.
    + rewrite (Login_submit_otp provider q d page st w Hstep). simpl.
      rewrite Hfail. simpl. by repeat split.
Qed.

(** C3, as stated, fails on the signup form: a successful [verifyOTP] that
    carries the token ["T"] leaves the session store empty. *)
Lemma join_verified_token_not_persisted :
  ¬ persists_verified_token (Join.component (λ key, key)).
Proof.
  intros H.
  specialize (H (λ _, answer_token "T")
                {| step := Join.Otp;
                   values := {| Join.name := "Ann"; Join.email := "a@b.com";
                                Join.otp := "123456"; Join.team := "core" |};
                   recaptchaToken := ""; message := no_message |}
                empty_world "123456" "T" eq_refl eq_refl eq_refl).
  vm_compute in H. by specialize (H ltac:(discriminate)).
Qed.

(** C3, amended. A submission in the step ['otp'] answered with success:
    the login form stores the token when the answer carries one, and sends
    the router to [redirectUrl] in both cases; the signup forms report
    success and send the router to the login page, and store nothing,
    whether the answer carries a token or not.  The step stays ['otp']. *)
Theorem verify_step_success (provider : Provider) :
  (∀ q d page st w,
     step st = Login.Otp →
     let verifyOTP := Hawcx.verifyOTP (Login.otp (values st)) in
     let verify := provider (calls w ++ [verifyOTP]) in
     let σ := handle provider (Login.component q d page) Submit (st, w) in
     Hawcx.success verify = true →
     step σ.1 = Login.Otp
     ∧ (∀ tk, Hawcx.data_access_token verify = Some tk → tk ≠ "" →
          sessionStorage σ.2 = <["access_token" := tk]> (sessionStorage w)
          ∧ log σ.2 = log w ++
              [ran (setMessage no_message); called verifyOTP;
               ran (sessionStorage_setItem "access_token" tk);
               ran (router_push (Login.redirectUrl (Login.token q) d))])
     ∧ (truthy_opt (Hawcx.data_access_token verify) = false →
          sessionStorage σ.2 = sessionStorage w
          ∧ log σ.2 = log w ++
              [ran (setMessage no_message); called verifyOTP;
               ran (router_push (Login.redirectUrl (Login.token q) d))]))
  ∧ (∀ t st w,
       step st = Join.Otp →
       let verifyOTP := Hawcx.verifyOTP (Join.otp (values st)) in
       let verify := provider (calls w ++ [verifyOTP]) in
       Hawcx.success verify = true →
       handle provider (Join.component t) Submit (st, w)
       = (st, {| sessionStorage := sessionStorage w;
                 log := log w ++
                   [called verifyOTP;
                    ran (toast_success (t "successfully-joined"));
                    ran (router_push "/auth/login")] |}))
  ∧ (∀ t tk l e i st w,
       step st = JoinWithInvitation.Otp →
       let verifyOTP :=
         Hawcx.verifyOTP (JoinWithInvitation.otp (values st)) in
       let verify := provider (calls w ++ [verifyOTP]) in
       Hawcx.success verify = true →
       handle provider (JoinWithInvitation.component t tk l e i) Submit (st, w)
       = (st, {| sessionStorage := sessionStorage w;
                 log := log w ++
                   [called verifyOTP;
                    ran (toast_success (t "successfully-joined"));
                    ran (router_push ("/auth/login?token=" +:+ tk))] |})).
Proof.
  split; [|split].
  - intros q d page st w Hstep verifyOTP verify σ Hsucc. subst σ.
    rewrite (Login_submit_otp provider q d page st w Hstep).
    fold verifyOTP. fold verify. rewrite Hsucc. simpl.
    split; [by destruct (truthy_opt _)|]. split.
    + intros tk Htk Hne. rewrite Htk, (truthy_opt_Some tk Hne). by simpl.
    + intros ->. by simpl.
  - intros t st w Hstep verifyOTP verify Hsucc.
    rewrite (Join_submit_otp provider t st w Hstep).
    fold verifyOTP. fold verify. by rewrite Hsucc.
  - intros t tk l e i st w Hstep verifyOTP verify Hsucc.
    rewrite (JoinWithInvitation_submit_otp provider t tk l e i st w Hstep).
    fold verifyOTP. fold verify. by rewrite Hsucc.
Qed.

(** On the login form the reading of C3 above does hold. *)
Lemma login_persists_verified_token q d page :
  persists_verified_token (Login.component q d page).
Proof.
  intros provider st w otp tk Hc verify Hsucc Htk Hne. subst verify.
  change (first_call (Login.onSubmit q d st) = Some (Hawcx.verifyOTP otp)) in Hc.
  rewrite Login_first_call in Hc.
  destruct (step st) eqn:Hstep; [done|]. injection Hc as Hotp.
  rewrite (Login_submit_otp provider q d page st w Hstep). simpl.
  rewrite Hotp, Hsucc, Htk, (truthy_opt_Some tk Hne). simpl.
  apply lookup_insert_eq.
Qed.

(** ** Writes to the session store *)

(** C5, as stated, fails on the login form: after the two-phase login,
    a second successful [verifyOTP] submission writes the token again. *)
Lemma login_second_verify_writes_again :
  ¬ written_at_most_once (Login.component plain_query "/dashboard" form_page)
      (Login.init plain_query).
Proof.
  intros H.
  specialize (H (two_phase_provider "T2")
                [Change "email" "a@b.com"; Submit;
                 Change "otp" "123456"; Submit; Submit]).
  vm_compute in H. lia.
Qed.

(** Reading the writes, pushes and calls off an extended log. *)
Ltac read_logs :=
  unfold writes, pushes, calls; simpl;
  repeat rewrite omap_app; simpl; repeat rewrite app_nil_r.

(** C5, amended. One submission executes at most one
    [sessionStorage.setItem]: none on the signup forms; on the login form
    none, or one of a non-empty token under ["access_token"] followed by the
    [router.push] to [redirectUrl].  Nothing keeps a later submission from
    writing again: a second [verifyOTP] answered like the first executes the
    same write a second time, and the store holds what it held after the
    first. *)
Theorem session_write_per_submission (provider : Provider) :
  (∀ t st w,
     let σ := handle provider (Join.component t) Submit (st, w) in
     writes σ.2 = writes w ∧ sessionStorage σ.2 = sessionStorage w)
  ∧ (∀ t tk l e i st w,
       let σ := handle provider (JoinWithInvitation.component t tk l e i)
                  Submit (st, w) in
       writes σ.2 = writes w ∧ sessionStorage σ.2 = sessionStorage w)
  ∧ (∀ q d page st w,
       let σ := handle provider (Login.component q d page) Submit (st, w) in
       (writes σ.2 = writes w ∧ sessionStorage σ.2 = sessionStorage w)
       ∨ ∃ tk, tk ≠ ""
           ∧ writes σ.2 = writes w ++ [("access_token", tk)]
           ∧ sessionStorage σ.2 = <["access_token" := tk]> (sessionStorage w)
           ∧ pushes σ.2 = pushes w ++ [Login.redirectUrl (Login.token q) d])
  ∧ (∀ q d page st w tk,
       step st = Login.Otp →
       let verifyOTP := Hawcx.verifyOTP (Login.otp (values st)) in
       provider (calls w ++ [verifyOTP]) = answer_token tk →
       provider (calls w ++ [verifyOTP; verifyOTP]) = answer_token tk →
       tk ≠ "" →
       let C := Login.component q d page in
       let σ1 := handle provider C Submit (st, w) in
       let σ2 := handle provider C Submit σ1 in
       writes σ2.2 = writes w ++ [("access_token", tk); ("access_token", tk)]
       ∧ sessionStorage σ2.2 = sessionStorage σ1.2).
Proof.
  split; [|split; [|split]].
  - intros t st w σ. subst σ. destruct (step st) eqn:Hstep.
    + rewrite (Join_submit_form provider t st w Hstep). simpl.
      destruct (Hawcx.success _); by read_logs.
    + rewrite (Join_submit_otp provider t st w Hstep). simpl.
      destruct (Hawcx.success _); by read_logs.
  - intros t tk l e i st w σ. subst σ. destruct (step st) eqn:Hstep.
    + rewrite (JoinWithInvitation_submit_form provider t tk l e i st w Hstep).
      simpl. destruct (Hawcx.success _); by read_logs.
    + rewrite (JoinWithInvitation_submit_otp provider t tk l e i st w Hstep).
      simpl. destruct (Hawcx.success _); by read_logs.
  - intros q d page st w σ. subst σ. destruct (step st) eqn:Hstep.
    + rewrite (Login_submit_email provider q d page st w Hstep). simpl.
      destruct (Hawcx.success _); simpl;
        [destruct (truthy_opt _) eqn:Htk|].
      * right. apply truthy_opt_true in Htk as (tk & -> & Hne).
        exists tk. by read_logs.
      * left. by read_logs.
      * left. by read_logs.
    + rewrite (Login_submit_otp provider q d page st w Hstep). simpl.
      destruct (Hawcx.success _); simpl;
        [destruct (truthy_opt _) eqn:Htk|].
      * right. apply truthy_opt_true in Htk as (tk & -> & Hne).
        exists tk. by read_logs.
      * left. by read_logs.
      * left. by read_logs.
  - intros q d page st w tk Hstep verifyOTP H1 H2 Hne C σ1 σ2.
    subst σ2 σ1 C.
    rewrite (Login_submit_otp provider q d page st w Hstep).
    assert (Htr : truthy tk = true) by by apply truthy_true.
    fold verifyOTP. rewrite H1. simpl. rewrite Htr.
    rewrite Login_submit_otp by done. simpl.
    rewrite calls_extend. simpl. fold verifyOTP.
    rewrite <- app_assoc. simpl. rewrite H2. simpl. rewrite Htr. split.
    + read_logs. by rewrite <- app_assoc.
    + apply insert_insert_eq.
Qed.

(** ** The CAPTCHA token *)

Section CaptchaIndependence.
Context {Step Values : Type}.
Variable C : Component Step Values.
Variable provider : Provider.

(** Neither the submit callback nor the rendering reads the token. *)
Hypothesis onSubmit_blind :
  ∀ st token, onSubmit C (setRecaptchaToken token st) = onSubmit C st.
Hypothesis inputs_blind :
  ∀ st token, inputs C (setRecaptchaToken token st) = inputs C st.

Lemma same_but_captcha_set (st1 st2 : State Step Values) w1 w2 :
  same_but_captcha (st1, w1) (st2, w2) →
  st2 = setRecaptchaToken (recaptchaToken st2) st1.
Proof.
  intros (Hs & Hv & Hm & _). destruct st1, st2; simpl in *.
  unfold setRecaptchaToken. simpl. congruence.
Qed.

Lemma exec_blind (p : Async Step) :
  ∀ (st1 st2 : State Step Values) w,
    same_but_captcha (st1, w) (st2, w) →
    same_but_captcha (exec provider p st1 w) (exec provider p st2 w).
Proof.
  induction p as [|c k IH|c k IH]; intros st1 st2 w Hsame.
  - by rewrite !exec_Return.
  - rewrite !exec_Do. apply IH.
    destruct Hsame as (Hs & Hv & Hm & _). simpl in *.
    unfold same_but_captcha. destruct c; simpl; auto.
  - rewrite !exec_Await. apply IH.
    destruct Hsame as (Hs & Hv & Hm & _). by unfold same_but_captcha.
Qed.

Lemma handle_blind ev1 ev2 σ1 σ2 :
  erase_captcha ev1 = erase_captcha ev2 →
  same_but_captcha σ1 σ2 →
  same_but_captcha (handle provider C ev1 σ1) (handle provider C ev2 σ2).
Proof.
  intros Hev Hsame. destruct σ1 as [st1 w1], σ2 as [st2 w2].
  pose proof (same_but_captcha_set _ _ _ _ Hsame) as Hst2.
  destruct Hsame as (Hs & Hv & Hm & Hw). simpl in *. subst w2.
  destruct ev1 as [n v|tok|], ev2 as [n' v'|tok'|]; try discriminate.
  - injection Hev as <- <-. unfold handle, editable.
    rewrite Hst2, inputs_blind.
    destruct (existsb _ _); unfold same_but_captcha; simpl; auto.
  - unfold handle, same_but_captcha. simpl. auto.
  - unfold handle. rewrite Hst2 at 1. rewrite onSubmit_blind.
    apply exec_blind. unfold same_but_captcha. auto.
Qed.

Lemma run_blind evs1 :
  ∀ evs2 σ1 σ2,
    map erase_captcha evs1 = map erase_captcha evs2 →
    same_but_captcha σ1 σ2 →
    same_but_captcha (run provider C evs1 σ1) (run provider C evs2 σ2).
Proof.
  induction evs1 as [|ev1 evs1 IH]; intros [|ev2 evs2] σ1 σ2 Hevs Hsame;
    try discriminate; [done|].
  injection Hevs as Hev Hevs. simpl.
  apply IH; [done|]. by apply handle_blind.
Qed.
End CaptchaIndependence.

(** C9. Two runs of a form on the same provider that differ only in the
    CAPTCHA tokens the widget hands over make the same provider calls with
    the same arguments, and leave the same log and the same store. *)
Theorem captcha_token_never_forwarded
    (provider : Provider) (evs1 evs2 : list UserEvent) :
  map erase_captcha evs1 = map erase_captcha evs2 →
  (∀ t σ1 σ2, same_but_captcha σ1 σ2 →
     let C := Join.component t in
     calls (run provider C evs1 σ1).2 = calls (run provider C evs2 σ2).2
     ∧ same_but_captcha (run provider C evs1 σ1) (run provider C evs2 σ2))
  ∧ (∀ t tk l e i σ1 σ2, same_but_captcha σ1 σ2 →
       let C := JoinWithInvitation.component t tk l e i in
       calls (run provider C evs1 σ1).2 = calls (run provider C evs2 σ2).2
       ∧ same_but_captcha (run provider C evs1 σ1) (run provider C evs2 σ2))
  ∧ (∀ q d page σ1 σ2, same_but_captcha σ1 σ2 →
       let C := Login.component q d page in
       calls (run provider C evs1 σ1).2 = calls (run provider C evs2 σ2).2
       ∧ same_but_captcha (run provider C evs1 σ1) (run provider C evs2 σ2)).
Proof.
  intros Hevs.
  assert (Hcalls : ∀ Step Values (σ σ' : State Step Values * World Step),
             same_but_captcha σ σ' → calls σ.2 = calls σ'.2 ∧ same_but_captcha σ σ').
  { intros ? ? σ σ' H. split; [|done]. destruct H as (_ & _ & _ & ->). done. }
  split; [|split]; intros; apply Hcalls; apply run_blind; auto;
    by intros [] ?.
Qed.

(** ** The e-mail input of the login form *)

Lemma Login_inputs_shown page st :
  Login.sessionStatus page ≠ Login.loading →
  Login.credentials page = true →
  Login.inputs page st
  = {| input_name := Some "email"; input_value := Login.email (values st);
       input_disabled := bool_decide (step st = Login.Otp) |}
    :: (if bool_decide (step st = Login.Otp) then
          [ {| input_name := Some "otp"; input_value := Login.otp (values st);
               input_disabled := false |} ]
        else []).
Proof.
  intros Hstatus Hcred. unfold Login.inputs.
  rewrite Hcred. by case_bool_decide.
Qed.

Lemma Login_editable_email q d page st :
  Login.sessionStatus page ≠ Login.loading →
  Login.credentials page = true →
  editable (Login.component q d page) st "email"
  = bool_decide (step st = Login.Email).
Proof.
  intros Hstatus Hcred. unfold editable. simpl.
  rewrite Login_inputs_shown by done.
  by destruct (step st).
Qed.

(** In the step ['otp'] no user event changes the step or the address. *)
Lemma Login_handle_otp provider q d page ev st w :
  step st = Login.Otp →
  let σ := handle provider (Login.component q d page) ev (st, w) in
  step σ.1 = Login.Otp ∧ Login.email (values σ.1) = Login.email (values st).
Proof.
  intros Hstep. destruct ev as [n v|tok|].
  - unfold handle, editable. simpl. unfold Login.inputs. rewrite Hstep.
    destruct page as [[] []]; simpl; try done;
      rewrite andb_false_r, andb_true_r, orb_false_r; simpl;
      (case_bool_decide as Hn; simpl; [|done]);
      by injection Hn as <-.
  - done.
  - simpl. rewrite (Login_submit_otp provider q d page st w Hstep). simpl.
    destruct (Hawcx.success _); [destruct (truthy_opt _)|]; done.
Qed.

Lemma Login_run_otp provider q d page evs :
  ∀ st w,
    step st = Login.Otp →
    let σ := run provider (Login.component q d page) evs (st, w) in
    step σ.1 = Login.Otp ∧ Login.email (values σ.1) = Login.email (values st).
Proof.
  induction evs as [|ev evs IH]; intros st w Hstep; [done|].
  simpl.
  pose proof (Login_handle_otp provider q d page ev st w Hstep) as [Hs He].
  destruct (handle provider (Login.component q d page) ev (st, w)) as [st' w'].
  simpl in *. destruct (IH st' w' Hs) as [Hs' He']. split; [done|].
  by rewrite <- He.
Qed.

(** C10. The e-mail input of the login form is disabled exactly in the step
    ['otp'], so it takes edits exactly in the step ['email']; once the form
    is in the step ['otp'] no sequence of user events changes the address
    that was submitted to [signIn], nor leaves that step. *)
Theorem login_email_locked_in_verify_step
    (q : Login.Query) (d : string) (page : Login.Page)
    (st : State Login.Step Login.Values) :
  Login.sessionStatus page ≠ Login.loading →
  Login.credentials page = true →
  (∀ i, i ∈ Login.inputs page st → input_name i = Some "email" →
        (input_disabled i = true ↔ step st = Login.Otp))
  ∧ (editable (Login.component q d page) st "email" = true
     ↔ step st = Login.Email)
  ∧ (∀ provider evs w,
       step st = Login.Otp →
       let σ := run provider (Login.component q d page) evs (st, w) in
       step σ.1 = Login.Otp
       ∧ Login.email (values σ.1) = Login.email (values st)).
Proof.
  intros Hstatus Hcred. split; [|split].
  - intros i Hi Hname. rewrite Login_inputs_shown in Hi by done.
    apply elem_of_cons in Hi as [-> | Hi].
    + simpl. by rewrite bool_decide_eq_true.
    + case_bool_decide; [|by apply elem_of_nil in Hi].
      apply list_elem_of_singleton in Hi as ->. done.
  - rewrite Login_editable_email by done. by rewrite bool_decide_eq_true.
  - intros provider evs w Hstep. by apply Login_run_otp.
Qed.

(** ** Runs of a form *)

Section Runs.
Context {Step Values : Type}.
Variable provider : Provider.
Variable C : Component Step Values.
Implicit Types (σ : State Step Values * World Step) (ev : UserEvent).

(** An invariant of the events is an invariant of the runs. *)
Lemma run_invariant (I : State Step Values * World Step → Prop) :
  (∀ ev σ, I σ → I (handle provider C ev σ)) →
  ∀ evs σ, I σ → I (run provider C evs σ).
Proof.
  intros Hstep evs. induction evs as [|ev evs IH]; intros σ Hσ; [done|].
  simpl. apply IH. by apply Hstep.
Qed.

(** Typing and solving the CAPTCHA change neither the step nor anything
    outside the component. *)
Lemma handle_no_submit ev st w :
  ev ≠ Submit →
  step (handle provider C ev (st, w)).1 = step st
  ∧ (handle provider C ev (st, w)).2 = w.
Proof.
  intros Hev. unfold handle. destruct ev as [n v|tok|]; [| |done].
  - by destruct (editable C st n).
  - done.
Qed.
End Runs.

(** What one submission of each form adds to the log, whatever the step and
    the answer. *)
Lemma Join_submit_summary provider t st w :
  let σ := handle provider (Join.component t) Submit (st, w) in
  let c := match step st with
           | Join.Form => Hawcx.signUp (Join.email (values st))
           | Join.Otp => Hawcx.verifyOTP (Join.otp (values st))
           end in
  calls σ.2 = calls w ++ [c]
  ∧ (∃ ps, pushes σ.2 = pushes w ++ ps
           ∧ (ps = [] ∨ (ps = ["/auth/login"] ∧ step st = Join.Otp)))
  ∧ writes σ.2 = writes w
  ∧ sessionStorage σ.2 = sessionStorage w
  ∧ values σ.1 = values st
  ∧ (step st = Join.Otp → step σ.1 = Join.Otp).
Proof.
  intros σ c. subst σ c. destruct (step st) eqn:Hstep.
  - rewrite (Join_submit_form provider t st w Hstep). simpl.
    destruct (Hawcx.success _); read_logs;
      (repeat split; try done); exists []; rewrite app_nil_r; auto.
  - rewrite (Join_submit_otp provider t st w Hstep). simpl.
    destruct (Hawcx.success _); read_logs; (repeat split; try done).
    + exists ["/auth/login"]. auto.
    + exists []. rewrite app_nil_r. auto.
Qed.

Lemma JoinWithInvitation_submit_summary provider t tk l e i st w :
  let σ := handle provider (JoinWithInvitation.component t tk l e i)
             Submit (st, w) in
  let c := match step st with
           | JoinWithInvitation.Form =>
               Hawcx.signUp (JoinWithInvitation.email (values st))
           | JoinWithInvitation.Otp =>
               Hawcx.verifyOTP (JoinWithInvitation.otp (values st))
           end in
  calls σ.2 = calls w ++ [c]
  ∧ (∃ ps, pushes σ.2 = pushes w ++ ps
           ∧ (ps = [] ∨ (ps = ["/auth/login?token=" +:+ tk]
                         ∧ step st = JoinWithInvitation.Otp)))
  ∧ writes σ.2 = writes w
  ∧ sessionStorage σ.2 = sessionStorage w
  ∧ values σ.1 = values st
  ∧ (step st = JoinWithInvitation.Otp → step σ.1 = JoinWithInvitation.Otp).
Proof.
  intros σ c. subst σ c. destruct (step st) eqn:Hstep.
  - rewrite (JoinWithInvitation_submit_form provider t tk l e i st w Hstep).
    simpl.
    destruct (Hawcx.success _); read_logs;
      (repeat split; try done); exists []; rewrite app_nil_r; auto.
  - rewrite (JoinWithInvitation_submit_otp provider t tk l e i st w Hstep).
    simpl.
    destruct (Hawcx.success _); read_logs; (repeat split; try done).
    + exists ["/auth/login?token=" +:+ tk]. auto.
    + exists []. rewrite app_nil_r. auto.
Qed.

Lemma Login_submit_summary provider q d page st w :
  let σ := handle provider (Login.component q d page) Submit (st, w) in
  let c := match step st with
           | Login.Email => Hawcx.signIn (Login.email (values st))
           | Login.Otp => Hawcx.verifyOTP (Login.otp (values st))
           end in
  let target := Login.redirectUrl (Login.token q) d in
  calls σ.2 = calls w ++ [c]
  ∧ ((writes σ.2 = writes w ∧ sessionStorage σ.2 = sessionStorage w
      ∧ (pushes σ.2 = pushes w ∨ pushes σ.2 = pushes w ++ [target]))
     ∨ ∃ tk, tk ≠ ""
         ∧ writes σ.2 = writes w ++ [("access_token", tk)]
         ∧ sessionStorage σ.2 = <["access_token" := tk]> (sessionStorage w)
         ∧ pushes σ.2 = pushes w ++ [target])
  ∧ values σ.1 = values st
  ∧ (step st = Login.Otp → step σ.1 = Login.Otp)
  ∧ (message σ.1 = no_message
     ∨ (Hawcx.success (provider (calls w ++ [c])) = false
        ∧ message σ.1
          = {| text := Some (Hawcx.message (provider (calls w ++ [c])));
               status := Some Status.error |})).
Proof.
  intros σ c target. subst σ c target. destruct (step st) eqn:Hstep.
  - rewrite (Login_submit_email provider q d page st w Hstep). simpl.
    destruct (Hawcx.success _) eqn:Hsucc; simpl;
      [destruct (truthy_opt _) eqn:Htk|].
    + apply truthy_opt_true in Htk as (tk & -> & Hne).
      read_logs. repeat split; auto. right. by exists tk.
    + read_logs. repeat split; auto.
    + read_logs. repeat split; auto.
  - rewrite (Login_submit_otp provider q d page st w Hstep). simpl.
    destruct (Hawcx.success _) eqn:Hsucc; simpl;
      [destruct (truthy_opt _) eqn:Htk|].
    + apply truthy_opt_true in Htk as (tk & -> & Hne).
      read_logs. repeat split; auto. right. by exists tk.
    + read_logs. repeat split; auto.
    + read_logs. repeat split; auto.
Qed.

(** ** The forms under Formik *)

Section FormikRuns.
Context {Step Values : Type}.
Variable validate : Values → gmap string Yup.Error.
Variable provider : Provider.
Variable C : Component Step Values.
Implicit Types (σ : State Step Values * World Step).

(** An event of a form under Formik is an event of the form, or nothing. *)
Lemma handle_form_cases (ev : FormEvent) σ :
  handle_form validate provider C ev σ = σ
  ∨ ∃ ev', handle_form validate provider C ev σ = handle provider C ev' σ.
Proof.
  destruct σ as [st w]. destruct ev as [n v|tok|sdk]; simpl.
  - right. exists (Change n v). unfold handle.
    by destruct (editable C st n).
  - right. by exists (Captcha tok).
  - destruct (reaches_onSubmit validate sdk st); [|by left].
    right. by exists Submit.
Qed.

Lemma run_form_invariant (I : State Step Values * World Step → Prop) :
  (∀ ev' σ, I σ → I (handle provider C ev' σ)) →
  ∀ evs σ, I σ → I (run_form validate provider C evs σ).
Proof.
  intros Hstep evs. induction evs as [|ev evs IH]; intros σ Hσ; [done|].
  simpl. apply IH.
  destruct (handle_form_cases ev σ) as [-> | (ev' & ->)]; [done|].
  by apply Hstep.
Qed.

(** A press reaches the body of [onSubmit] only with values that pass the
    schema. *)
Lemma reaches_onSubmit_valid sdk (st : State Step Values) :
  reaches_onSubmit validate sdk st = true
  ↔ validate (values st) = ∅ ∧ sdk = true.
Proof.
  unfold reaches_onSubmit. rewrite andb_true_iff, bool_decide_eq_true. done.
Qed.

(** Running a body to its end is running it to its first [await] and on
    from there with the provider's answer. *)
Lemma exec_start (p : Async Step) :
  ∀ (st : State Step Values) (w : World Step),
    exec provider p st w
    = let '(st', w', f) := start p st w in
      match f with
      | None => (st', w')
      | Some f => exec provider (flight_k f (provider (calls w'))) st' w'
      end.
Proof.
  induction p as [|c k IH|c k IH]; intros st w; simpl.
  - done.
  - rewrite exec_Do. apply IH.
  - done.
Qed.

(** A body that calls the provider runs up to its first call, and is
    suspended there. *)
Lemma start_first_call (p : Async Step) c :
  first_call p = Some c →
  ∀ (st : State Step Values) (w : World Step), ∃ st' w' k,
    start p st w = (st', w', Some {| flight_call := c; flight_k := k |})
    ∧ calls w' = calls w ++ [c].
Proof.
  induction p as [|cmd k IH|c' k IH]; intros Hc st w; simpl in *.
  - done.
  - destruct (IH Hc (apply_state cmd st) (apply_world cmd w))
      as (st' & w' & k' & Hs & Hcalls).
    rewrite calls_apply_world in Hcalls. eauto.
  - injection Hc as ->. eexists _, _, _. split; [done|].
    apply calls_call_world.
Qed.

(** Such a body is put in flight by a press that reaches it, whatever is in
    flight already and whatever [isSubmitting] says. *)
Lemma press_joins_in_flight (π : Mounted Step Values) c :
  validate (values (cells π)) = ∅ →
  first_call (onSubmit C (cells π)) = Some c →
  let π' := step_mounted validate C (user (press true)) π in
  (∃ k, in_flight π'
        = in_flight π ++ [{| flight_call := c; flight_k := k |}])
  ∧ calls (world π') = calls (world π) ++ [c]
  ∧ isSubmitting π' = true.
Proof.
  intros Hvalid Hc. simpl. unfold reaches_onSubmit.
  rewrite bool_decide_eq_true_2 by done. simpl. unfold advance.
  destruct (start_first_call _ _ Hc (cells π) (world π))
    as (st' & w' & k & -> & Hcalls).
  simpl. eauto.
Qed.
End FormikRuns.

Lemma Join_runValidationSchema P r values :
  Join.runValidationSchema P r values
  = Join.JoinUserSchema P r Join.Form values.
Proof. reflexivity. Qed.

Lemma JoinWithInvitation_runValidationSchema P r values :
  JoinWithInvitation.runValidationSchema P r values
  = JoinWithInvitation.JoinUserSchema P r JoinWithInvitation.Form values.
Proof. reflexivity. Qed.

Lemma Login_runValidationSchema P r values :
  Login.runValidationSchema P r values
  = Login.validationSchema P r Login.Email values.
Proof. reflexivity. Qed.

(** The schemas above, resolved with the step in the context, are the
    schemas resolved in a context that holds it. *)
Lemma JoinUserSchema_in_step P r s values :
  Join.JoinUserSchema_in P r (Some s) values = Join.JoinUserSchema P r s values
  ∧ ∀ s' values',
      JoinWithInvitation.JoinUserSchema_in P r (Some s') values'
      = JoinWithInvitation.JoinUserSchema P r s' values'.
Proof. split; [|intros s' ?; destruct s']; by destruct s. Qed.

Lemma validationSchema_in_step P r s values :
  Login.validationSchema_in P r (Some s) values
  = Login.validationSchema P r s values.
Proof. by destruct s. Qed.

(** C1. As the forms run, [otp] is required in no step: Formik resolves
    [$step] against the values, which hold no [step], so that in every step
    the forms validate as the schema of the first step does.  A submission
    in the step ['otp'] whose other fields pass the schema reaches
    [verifyOTP], with whatever the code input holds, the empty string
    included. *)
Theorem otp_not_required_as_the_forms_run
    (P : MaxLengthPolicies) (rEmail : string → bool) :
  (∀ values,
     Join.runValidationSchema P rEmail values !! "otp" = None
     ∧ Join.runValidationSchema P rEmail values
       = Join.JoinUserSchema P rEmail Join.Form values)
  ∧ (∀ values,
       JoinWithInvitation.runValidationSchema P rEmail values !! "otp" = None
       ∧ JoinWithInvitation.runValidationSchema P rEmail values
         = JoinWithInvitation.JoinUserSchema P rEmail JoinWithInvitation.Form
             values)
  ∧ (∀ values,
       Login.runValidationSchema P rEmail values !! "otp" = None
       ∧ Login.runValidationSchema P rEmail values
         = Login.validationSchema P rEmail Login.Email values)
  ∧ (∀ provider t st w,
       step st = Join.Otp →
       Join.runValidationSchema P rEmail (values st) = ∅ →
       calls (handle_form (Join.runValidationSchema P rEmail) provider
                (Join.component t) (press true) (st, w)).2
       = calls w ++ [Hawcx.verifyOTP (Join.otp (values st))])
  ∧ (∀ provider t tk l e i st w,
       step st = JoinWithInvitation.Otp →
       JoinWithInvitation.runValidationSchema P rEmail (values st) = ∅ →
       calls (handle_form (JoinWithInvitation.runValidationSchema P rEmail)
                provider (JoinWithInvitation.component t tk l e i)
                (press true) (st, w)).2
       = calls w ++ [Hawcx.verifyOTP (JoinWithInvitation.otp (values st))])
  ∧ (∀ provider q d page st w,
       step st = Login.Otp →
       Login.runValidationSchema P rEmail (values st) = ∅ →
       calls (handle_form (Login.runValidationSchema P rEmail) provider
                (Login.component q d page) (press true) (st, w)).2
       = calls w ++ [Hawcx.verifyOTP (Login.otp (values st))]).
Proof.
  split; [|split; [|split; [|split; [|split]]]].
  - intros values. split; [|done].
    rewrite Join_runValidationSchema. apply Join_otp_error.
  - intros values. split; [|done].
    rewrite JoinWithInvitation_runValidationSchema.
    apply JoinWithInvitation_otp_error.
  - intros values. split; [|done].
    rewrite Login_runValidationSchema. apply Login_otp_error.
  - intros provider t st w Hstep Hvalid.
    unfold handle_form, reaches_onSubmit. simpl.
    rewrite bool_decide_eq_true_2 by done. simpl.
    destruct (Join_submit_summary provider t st w) as (Hc & _).
    by rewrite Hstep in Hc.
  - intros provider t tk l e i st w Hstep Hvalid.
    unfold handle_form, reaches_onSubmit. simpl.
    rewrite bool_decide_eq_true_2 by done. simpl.
    destruct (JoinWithInvitation_submit_summary provider t tk l e i st w)
      as (Hc & _).
    by rewrite Hstep in Hc.
  - intros provider q d page st w Hstep Hvalid.
    unfold handle_form, reaches_onSubmit. simpl.
    rewrite bool_decide_eq_true_2 by done. simpl.
    destruct (Login_submit_summary provider q d page st w) as (Hc & _).
    by rewrite Hstep in Hc.
Qed.

(** *** Submissions that overlap *)

(** C8, as stated, fails on the login page: the second of two presses of
    the submit button is not held back, and two [signIn] calls are in
    flight. *)
Lemma login_two_submissions_in_flight :
  ¬ one_in_flight
      (Login.runValidationSchema
         {| policy_name := 104; policy_email := 254; policy_team := 50 |}
         (λ _, true))
      (Login.component plain_query "/dashboard" form_page)
      (Login.init plain_query).
Proof.
  intros H.
  specialize (H [user (change "email" "a@b.com"); user (press true);
                 user (press true)]).
  vm_compute in H. lia.
Qed.

(** C8, amended. No flag gates a submission: in each of the three forms a
    press of the submit button with values that pass the schema issues its
    provider call whatever is in flight and whatever [isSubmitting] says.
    The new call joins those in flight, which stay as they are; the cells
    are untouched but for the message of the login page, which is cleared;
    and [isSubmitting] reaches the button as [loading] only. *)
Theorem submission_joins_those_in_flight
    (P : MaxLengthPolicies) (rEmail : string → bool) :
  (∀ t (π : Mounted Join.Step Join.Values),
     Join.runValidationSchema P rEmail (values (cells π)) = ∅ →
     let c := match step (cells π) with
              | Join.Form => Hawcx.signUp (Join.email (values (cells π)))
              | Join.Otp => Hawcx.verifyOTP (Join.otp (values (cells π)))
              end in
     let π' := step_mounted (Join.runValidationSchema P rEmail)
                 (Join.component t) (user (press true)) π in
     (∃ k, in_flight π'
           = in_flight π ++ [{| flight_call := c; flight_k := k |}])
     ∧ calls (world π') = calls (world π) ++ [c]
     ∧ cells π' = cells π
     ∧ submitButton π' = {| loading := true; disabled := false |})
  ∧ (∀ t tk l e i (π : Mounted JoinWithInvitation.Step JoinWithInvitation.Values),
       JoinWithInvitation.runValidationSchema P rEmail (values (cells π)) = ∅ →
       let c := match step (cells π) with
                | JoinWithInvitation.Form =>
                    Hawcx.signUp (JoinWithInvitation.email (values (cells π)))
                | JoinWithInvitation.Otp =>
                    Hawcx.verifyOTP (JoinWithInvitation.otp (values (cells π)))
                end in
       let π' := step_mounted (JoinWithInvitation.runValidationSchema P rEmail)
                   (JoinWithInvitation.component t tk l e i)
                   (user (press true)) π in
       (∃ k, in_flight π'
             = in_flight π ++ [{| flight_call := c; flight_k := k |}])
       ∧ calls (world π') = calls (world π) ++ [c]
       ∧ cells π' = cells π
       ∧ submitButton π' = {| loading := true; disabled := false |})
  ∧ (∀ q d page (π : Mounted Login.Step Login.Values),
       Login.runValidationSchema P rEmail (values (cells π)) = ∅ →
       let c := match step (cells π) with
                | Login.Email => Hawcx.signIn (Login.email (values (cells π)))
                | Login.Otp => Hawcx.verifyOTP (Login.otp (values (cells π)))
                end in
       let π' := step_mounted (Login.runValidationSchema P rEmail)
                   (Login.component q d page) (user (press true)) π in
       (∃ k, in_flight π'
             = in_flight π ++ [{| flight_call := c; flight_k := k |}])
       ∧ calls (world π') = calls (world π) ++ [c]
       ∧ cells π' = apply_state (setMessage no_message) (cells π)
       ∧ submitButton π' = {| loading := true; disabled := false |}).
Proof.
  split; [|split].
  - intros t π Hvalid c π'. subst c π'.
    destruct (press_joins_in_flight (Join.runValidationSchema P rEmail)
                (Join.component t) π _ Hvalid (Join_first_call t (cells π)))
      as (Hk & Hcalls & Hsub).
    split; [exact Hk|]. split; [exact Hcalls|].
    unfold submitButton. rewrite Hsub. split; [|done].
    simpl. unfold reaches_onSubmit.
    rewrite bool_decide_eq_true_2 by done. simpl.
    unfold advance, Join.onSubmit. by destruct (step (cells π)).
  - intros t tk l e i π Hvalid c π'. subst c π'.
    destruct (press_joins_in_flight
                (JoinWithInvitation.runValidationSchema P rEmail)
                (JoinWithInvitation.component t tk l e i) π _ Hvalid
                (JoinWithInvitation_first_call t tk (cells π)))
      as (Hk & Hcalls & Hsub).
    split; [exact Hk|]. split; [exact Hcalls|].
    unfold submitButton. rewrite Hsub. split; [|done].
    simpl. unfold reaches_onSubmit.
    rewrite bool_decide_eq_true_2 by done. simpl.
    unfold advance, JoinWithInvitation.onSubmit. by destruct (step (cells π)).
  - intros q d page π Hvalid c π'. subst c π'.
    destruct (press_joins_in_flight (Login.runValidationSchema P rEmail)
                (Login.component q d page) π _ Hvalid
                (Login_first_call q d (cells π)))
      as (Hk & Hcalls & Hsub).
    split; [exact Hk|]. split; [exact Hcalls|].
    unfold submitButton. rewrite Hsub. split; [|done].
    simpl. unfold reaches_onSubmit.
    rewrite bool_decide_eq_true_2 by done. simpl.
    unfold advance, Login.onSubmit. simpl. by destruct (step (cells π)).
Qed.

(** ** The scenarios of the specification, through the theorems above *)

(** Scenario B from end to end: the address is typed and submitted, the
    provider challenges, the code is typed and submitted, the provider
    answers with ["T2"]. *)
Example login_two_phase :
  let σ := run (two_phase_provider "T2")
             (Login.component plain_query "/dashboard" form_page)
             [Change "email" "a@b.com"; Submit; Change "otp" "123456"; Submit]
             (Login.init plain_query, empty_world) in
  calls σ.2 = [Hawcx.signIn "a@b.com"; Hawcx.verifyOTP "123456"]
  ∧ writes σ.2 = [("access_token", "T2")]
  ∧ pushes σ.2 = ["/dashboard"]
  ∧ sessionStorage σ.2 !! "access_token" = Some "T2"
  ∧ step σ.1 = Login.Otp.
Proof. vm_compute. done. Qed.

(** The same flow reached through an invitation link. *)
Example login_two_phase_invited :
  let q := {| Login.error := None; Login.success := None;
              Login.token := Some "INV1" |} in
  let σ := run (two_phase_provider "T2")
             (Login.component q "/dashboard" form_page)
             [Change "email" "a@b.com"; Submit; Change "otp" "123456"; Submit]
             (Login.init q, empty_world) in
  pushes σ.2 = ["/invitations/INV1"].
Proof. vm_compute. done. Qed.

(** The signup form: the address is submitted, the code is verified, and
    the visitor is sent to the login page with nothing stored. *)
Example join_two_phase :
  let σ := run (two_phase_provider "T2") (Join.component (λ key, key))
             [Change "name" "Ann"; Change "team" "core";
              Change "email" "a@b.com"; Submit;
              Change "otp" "123456"; Submit]
             (Join.init, empty_world) in
  calls σ.2 = [Hawcx.signUp "a@b.com"; Hawcx.verifyOTP "123456"]
  ∧ writes σ.2 = []
  ∧ pushes σ.2 = ["/auth/login"]
  ∧ sessionStorage σ.2 = ∅.
Proof. vm_compute. done. Qed.

(** Before the first submission the signup form has no [otp] input to
    type in. *)
Example join_otp_not_rendered_in_request_step :
  let σ := run (two_phase_provider "T2") (Join.component (λ key, key))
             [Change "otp" "123456"] (Join.init, empty_world) in
  Join.otp (values σ.1) = "".
Proof. reflexivity. Qed.

(** Scenario A: [signIn("a@b.com")] answered with the token ["T1"]. *)
Lemma login_request_step_success_witness :
  let provider : Provider := λ _, answer_token "T1" in
  let σ := handle provider (Login.component plain_query "/dashboard" form_page)
             Submit (login_with_email, empty_world) in
  step login_with_email = Login.Email
  ∧ Hawcx.success (provider [Hawcx.signIn "a@b.com"]) = true
  ∧ sessionStorage σ.2 = <["access_token" := "T1"]> ∅
  ∧ log σ.2 = [ran (setMessage no_message); called (Hawcx.signIn "a@b.com");
               ran (sessionStorage_setItem "access_token" "T1");
               ran (router_push "/dashboard")]
  ∧ step σ.1 = Login.Email.
Proof.
  intros provider σ.
  split; [reflexivity|]. split; [reflexivity|].
  apply (proj1 (login_request_step_success provider plain_query "/dashboard"
                  form_page login_with_email empty_world eq_refl eq_refl) "T1").
  - reflexivity.
  - discriminate.
Defined.

(** Scenario B, second phase: [verifyOTP("123456")] answered with ["T2"]. *)
Lemma verify_step_success_witness :
  let provider : Provider := two_phase_provider "T2" in
  let σ := handle provider (Login.component plain_query "/dashboard" form_page)
             Submit (login_awaiting_otp, empty_world) in
  step login_awaiting_otp = Login.Otp
  ∧ Hawcx.success (provider [Hawcx.verifyOTP "123456"]) = true
  ∧ sessionStorage σ.2 = <["access_token" := "T2"]> ∅
  ∧ log σ.2 = [ran (setMessage no_message); called (Hawcx.verifyOTP "123456");
               ran (sessionStorage_setItem "access_token" "T2");
               ran (router_push "/dashboard")].
Proof.
  intros provider σ.
  split; [reflexivity|]. split; [reflexivity|].
  apply (proj1 (proj2 (proj1 (verify_step_success provider) plain_query
                  "/dashboard" form_page login_awaiting_otp empty_world
                  eq_refl eq_refl)) "T2").
  - reflexivity.
  - discriminate.
Defined.

(** Scenario C: [signUp("a@b.com")] answered with the failure
    ["email-taken"]; and a [signIn] answered with the same failure. *)
Lemma provider_failure_keeps_phase_witness :
  let provider : Provider := λ _, answer_failure "email-taken" in
  first_call (Join.onSubmit (λ key, key) (join_filled Join.Form))
  = Some (Hawcx.signUp "a@b.com")
  ∧ Hawcx.success (provider [Hawcx.signUp "a@b.com"]) = false
  ∧ handle provider (Join.component (λ key, key)) Submit
      (join_filled Join.Form, empty_world)
    = (join_filled Join.Form,
       {| sessionStorage := ∅;
          log := [called (Hawcx.signUp "a@b.com");
                  ran (toast_error "email-taken")] |})
  ∧ LoginPage.alert (λ key, key)
      (message (handle provider
                  (Login.component plain_query "/dashboard" form_page)
                  Submit (login_with_email, empty_world)).1)
    = Some (Status.error, "email-taken").
Proof.
  intros provider.
  split; [reflexivity|]. split; [reflexivity|]. split.
  - apply (proj1 (proj1 (provider_failure_keeps_phase provider) (λ key, key)
                    (join_filled Join.Form) empty_world
                    (Hawcx.signUp "a@b.com") eq_refl eq_refl)).
  - apply (proj1 (proj2 (proj2 (proj2 (provider_failure_keeps_phase provider))
                           (λ key, key) plain_query "/dashboard" form_page
                           login_with_email empty_world
                           (Hawcx.signIn "a@b.com") eq_refl eq_refl))).
Defined.

(** The idempotence scenario: the same successful [verifyOTP] twice. *)
Lemma session_write_per_submission_witness :
  let provider : Provider := λ _, answer_token "T2" in
  let C := Login.component plain_query "/dashboard" form_page in
  let σ1 := handle provider C Submit (login_awaiting_otp, empty_world) in
  let σ2 := handle provider C Submit σ1 in
  step login_awaiting_otp = Login.Otp
  ∧ "T2" ≠ ""
  ∧ writes σ2.2 = [("access_token", "T2"); ("access_token", "T2")]
  ∧ sessionStorage σ2.2 = sessionStorage σ1.2.
Proof.
  intros provider C σ1 σ2.
  split; [reflexivity|]. split; [discriminate|].
  apply (proj2 (proj2 (proj2 (session_write_per_submission provider)))
           plain_query "/dashboard" form_page login_awaiting_otp empty_world "T2").
  - reflexivity.
  - reflexivity.
  - reflexivity.
  - discriminate.
Defined.

(** Two runs of the login form that differ in the CAPTCHA token only. *)
Lemma captcha_token_never_forwarded_witness :
  let provider : Provider := two_phase_provider "T2" in
  let C := Login.component plain_query "/dashboard" form_page in
  let evs1 := [Captcha "03AGdBq24"; Change "email" "a@b.com"; Submit] in
  let evs2 := [Captcha "03AGdBq25"; Change "email" "a@b.com"; Submit] in
  let σ := (Login.init plain_query, empty_world) in
  map erase_captcha evs1 = map erase_captcha evs2
  ∧ calls (run provider C evs1 σ).2 = calls (run provider C evs2 σ).2.
Proof.
  intros provider C evs1 evs2 σ.
  split; [reflexivity|].
  apply (proj2 (proj2 (captcha_token_never_forwarded provider evs1 evs2
                         eq_refl)) plain_query "/dashboard" form_page σ σ).
  repeat split.
Defined.

(** An attempt to retype the address while the code is awaited. *)
Lemma login_email_locked_in_verify_step_witness :
  let provider : Provider := two_phase_provider "T2" in
  let σ := run provider (Login.component plain_query "/dashboard" form_page)
             [Change "email" "eve@b.com"; Submit]
             (login_awaiting_otp, empty_world) in
  Login.sessionStatus form_page ≠ Login.loading
  ∧ Login.credentials form_page = true
  ∧ step login_awaiting_otp = Login.Otp
  ∧ step σ.1 = Login.Otp
  ∧ Login.email (values σ.1) = "a@b.com".
Proof.
  intros provider σ.
  split; [discriminate|]. split; [reflexivity|]. split; [reflexivity|].
  apply (proj2 (proj2 (login_email_locked_in_verify_step plain_query
                         "/dashboard" form_page login_awaiting_otp
                         ltac:(discriminate) eq_refl))
           provider [Change "email" "eve@b.com"; Submit] empty_world).
  reflexivity.
Defined.

(** * Further properties *)

(** ** The provider handle *)

Section SdkFacts.
Context {Instance : Type}.
Variable init : list string → string → HawcxSdk.InitResult Instance.
Implicit Types (m : HawcxSdk.ModuleState Instance).

Lemma apiKey_cases env_key :
  (∃ k, env_key = Some k ∧ k ≠ "" ∧ HawcxSdk.apiKey env_key = k)
  ∨ ((env_key = None ∨ env_key = Some "")
     ∧ HawcxSdk.apiKey env_key = "YOUR_API_KEY").
Proof.
  unfold HawcxSdk.apiKey. destruct (truthy_opt env_key) eqn:Hk.
  - apply truthy_opt_true in Hk as (k & -> & Hne). left. by exists k.
  - right. split; [|done]. destruct env_key as [k|]; [|by left].
    right. f_equal. simpl in Hk. unfold truthy in Hk.
    by destruct (String.eqb_spec k "").
Qed.

Lemma apiKey_nonempty env_key : HawcxSdk.apiKey env_key ≠ "".
Proof.
  destruct (apiKey_cases env_key) as [(k & _ & Hne & ->) | [_ ->]]; done.
Qed.

Lemma getHawcxAuth_cached imp env_key m i :
  HawcxSdk.authInstance m = Some i →
  HawcxSdk.getHawcxAuth init true imp env_key m = (HawcxSdk.returned (Some i), m).
Proof. intros Hm. unfold HawcxSdk.getHawcxAuth. simpl. by rewrite Hm. Qed.

Lemma getHawcxAuth_returned_instance imp env_key m i m' :
  HawcxSdk.getHawcxAuth init true imp env_key m
  = (HawcxSdk.returned (Some i), m') →
  HawcxSdk.authInstance m' = Some i.
Proof.
  unfold HawcxSdk.getHawcxAuth, HawcxSdk.initialize. simpl.
  destruct (HawcxSdk.authInstance m) as [j|] eqn:Hm.
  - by intros [= <- <-].
  - destruct imp; [done|]. simpl.
    destruct (init _ _) as [v|r]; [|done]. by intros [= -> <-].
Qed.
End SdkFacts.

(** A call that is awaited to its end before anything else happens does
    what [getHawcxAuth] above does. *)
Lemma getHawcxAuth_awaited {Instance : Type}
    (init : list string → string → HawcxSdk.InitResult Instance)
    (window : bool) (imp env_key : option string)
    (m : HawcxSdk.ModuleState Instance) :
  HawcxSdk.sdk_run window env_key (HawcxSdk.awaited_call init imp env_key m)
    (HawcxSdk.idle m)
  = let (o, m') := HawcxSdk.getHawcxAuth init window imp env_key m in
    {| HawcxSdk.sdk_module := m'; HawcxSdk.suspended := [];
       HawcxSdk.outcomes := [o] |}.
Proof.
  unfold HawcxSdk.getHawcxAuth, HawcxSdk.initialize, HawcxSdk.awaited_call.
  destruct window; simpl; [|done].
  destruct (HawcxSdk.authInstance m) as [i|] eqn:Hm; simpl; [done|].
  destruct imp as [reason|]; simpl; [done|].
  destruct (init _ _) as [v|reason]; simpl; [done|].
  by rewrite Hm.
Qed.

(** Two calls that overlap while [authInstance] is unset both call [init],
    and each returns what its own [init] resolved to; the later assignment
    is the one that stays. *)
Example getHawcxAuth_overlapping_calls :
  let ρ := HawcxSdk.sdk_run true None
             [ HawcxSdk.call; HawcxSdk.call;
               HawcxSdk.import_settles 0 None;
               HawcxSdk.import_settles 1 None;
               HawcxSdk.init_settles 0 (HawcxSdk.resolved (Some 1));
               HawcxSdk.init_settles 0 (HawcxSdk.resolved (Some 2));
               HawcxSdk.call ]
             (HawcxSdk.idle HawcxSdk.fresh) in
  HawcxSdk.outcomes ρ
  = [ HawcxSdk.returned (Some 1); HawcxSdk.returned (Some 2);
      HawcxSdk.returned (Some 2) ]
  ∧ HawcxSdk.inits (HawcxSdk.sdk_module ρ) = ["YOUR_API_KEY"; "YOUR_API_KEY"]
  ∧ HawcxSdk.authInstance (HawcxSdk.sdk_module ρ) = Some 2.
Proof. vm_compute. done. Qed.

(** X1. Once [authInstance] holds an instance and no call is suspended,
    every later call in the browser returns that instance at once, however
    the calls and the settlements that follow are interleaved: no call is
    suspended again, and the module is left as it is, so that [init] is not
    called again. *)
Theorem getHawcxAuth_singleton {Instance : Type}
    (env_key : option string) (es : list (HawcxSdk.SdkEvent Instance))
    (ρ : HawcxSdk.Running Instance) (i : Instance) :
  HawcxSdk.authInstance (HawcxSdk.sdk_module ρ) = Some i →
  HawcxSdk.suspended ρ = [] →
  let ρ' := HawcxSdk.sdk_run true env_key es ρ in
  HawcxSdk.sdk_module ρ' = HawcxSdk.sdk_module ρ
  ∧ HawcxSdk.suspended ρ' = []
  ∧ HawcxSdk.outcomes ρ'
    = HawcxSdk.outcomes ρ
      ++ replicate (length (filter (λ e, HawcxSdk.is_call e = true) es))
           (HawcxSdk.returned (Some i)).
Proof.
  revert ρ. induction es as [|e es IH]; intros ρ Hi Hnone; simpl.
  - by rewrite app_nil_r.
  - destruct e as [|k failure|k r]; simpl.
    + rewrite Hi.
      destruct (IH {| HawcxSdk.sdk_module := HawcxSdk.sdk_module ρ;
                      HawcxSdk.suspended := HawcxSdk.suspended ρ;
                      HawcxSdk.outcomes :=
                        HawcxSdk.ends (HawcxSdk.returned (Some i)) ρ |}
                   Hi Hnone) as (Hm & Hs & Ho).
      simpl in *. repeat split; [done..|].
      rewrite Ho. unfold HawcxSdk.ends. by rewrite <- app_assoc.
    + rewrite Hnone. simpl. by apply IH.
    + rewrite Hnone. simpl. by apply IH.
Qed.

Lemma getHawcxAuth_singleton_witness :
  let ρ : HawcxSdk.Running nat :=
    {| HawcxSdk.sdk_module := {| HawcxSdk.authInstance := Some 7;
                                 HawcxSdk.inits := ["YOUR_API_KEY"] |};
       HawcxSdk.suspended := [];
       HawcxSdk.outcomes := [HawcxSdk.returned (Some 7)] |} in
  let ρ' := HawcxSdk.sdk_run true None
              [ HawcxSdk.call; HawcxSdk.import_settles 0 (Some "offline");
                HawcxSdk.call;
                HawcxSdk.init_settles 0 (HawcxSdk.rejected "network");
                HawcxSdk.call ] ρ in
  HawcxSdk.sdk_module ρ' = HawcxSdk.sdk_module ρ
  ∧ HawcxSdk.suspended ρ' = []
  ∧ HawcxSdk.outcomes ρ' = replicate 4 (HawcxSdk.returned (Some 7)).
Proof.
  intros ρ ρ'.
  apply (getHawcxAuth_singleton None
           [ HawcxSdk.call; HawcxSdk.import_settles 0 (Some "offline");
             HawcxSdk.call;
             HawcxSdk.init_settles 0 (HawcxSdk.rejected "network");
             HawcxSdk.call ] ρ 7); reflexivity.
Defined.

(** X2. A failed initialisation is not remembered: as long as [init] yields
    no instance (it rejects, or resolves to a falsy value), each call in the
    browser calls [init] again with the same key, [authInstance] stays
    unset, and no call returns an instance. *)
Theorem getHawcxAuth_failure_not_cached {Instance : Type}
    (init : list string → string → HawcxSdk.InitResult Instance)
    (env_key : option string) (n : nat) :
  (∀ ks i, init ks (HawcxSdk.apiKey env_key) ≠ HawcxSdk.resolved (Some i)) →
  ∀ m, HawcxSdk.authInstance m = None →
    let r := HawcxSdk.calls_in_a_row init true None env_key n m in
    HawcxSdk.authInstance r.2 = None
    ∧ HawcxSdk.inits r.2
      = HawcxSdk.inits m ++ replicate n (HawcxSdk.apiKey env_key)
    ∧ length r.1 = n
    ∧ Forall (λ o, ∀ i, o ≠ HawcxSdk.returned (Some i)) r.1.
Proof.
  intros Hinit. induction n as [|n IH]; intros m Hm.
  - simpl. by rewrite app_nil_r.
  - simpl. unfold HawcxSdk.getHawcxAuth, HawcxSdk.initialize. simpl.
    rewrite Hm.
    destruct (init (HawcxSdk.inits m) (HawcxSdk.apiKey env_key))
      as [[i|]|reason] eqn:Hi.
    + by apply Hinit in Hi.
    + specialize (IH {| HawcxSdk.authInstance := None;
                        HawcxSdk.inits := HawcxSdk.inits m
                                          ++ [HawcxSdk.apiKey env_key] |}
                     eq_refl).
      destruct (HawcxSdk.calls_in_a_row _ _ _ _ n _) as [os m''].
      simpl in *. destruct IH as (? & -> & ? & ?).
      repeat split; [done| by rewrite <- app_assoc | by f_equal |].
      by constructor.
    + specialize (IH {| HawcxSdk.authInstance := None;
                        HawcxSdk.inits := HawcxSdk.inits m
                                          ++ [HawcxSdk.apiKey env_key] |}
                     eq_refl).
      destruct (HawcxSdk.calls_in_a_row _ _ _ _ n _) as [os m''].
      simpl in *. destruct IH as (? & -> & ? & ?).
      repeat split; [done| by rewrite <- app_assoc | by f_equal |].
      by constructor.
Qed.

Lemma getHawcxAuth_failure_not_cached_witness :
  let init : list string → string → HawcxSdk.InitResult nat :=
    λ _ _, HawcxSdk.rejected "network" in
  let r := HawcxSdk.calls_in_a_row init true None (Some "pk_live") 2
             HawcxSdk.fresh in
  HawcxSdk.authInstance r.2 = None
  ∧ HawcxSdk.inits r.2 = ["pk_live"; "pk_live"]
  ∧ length r.1 = 2
  ∧ Forall (λ o, ∀ i, o ≠ HawcxSdk.returned (Some i)) r.1.
Proof.
  intros init r.
  apply (getHawcxAuth_failure_not_cached init (Some "pk_live") 2).
  - discriminate.
  - reflexivity.
Defined.

(** X3. Whatever the SDK answers and wherever the calls are made, [init] is
    only ever given the key [apiKey] computes, which is never empty: the
    configured key when it is set and non-empty, ['YOUR_API_KEY'] otherwise;
    and without [window] no call reaches [init] at all. *)
Theorem getHawcxAuth_init_keys {Instance : Type}
    (init : list string → string → HawcxSdk.InitResult Instance)
    (window : bool) (imp env_key : option string) (n : nat) :
  ∀ m, ∃ ks,
    HawcxSdk.inits (HawcxSdk.calls_in_a_row init window imp env_key n m).2
    = HawcxSdk.inits m ++ ks
    ∧ Forall (λ k, k = HawcxSdk.apiKey env_key ∧ k ≠ "") ks
    ∧ (ks = [] ∨ (window = true ∧ imp = None)).
Proof.
  induction n as [|n IH]; intros m.
  - exists []. simpl. rewrite app_nil_r. auto.
  - simpl.
    destruct (HawcxSdk.getHawcxAuth init window imp env_key m) as [o m1] eqn:H1.
    destruct (IH m1) as (ks & Hks & Hall & Hnone).
    destruct (HawcxSdk.calls_in_a_row _ _ _ _ n m1) as [os m2]. simpl in *.
    unfold HawcxSdk.getHawcxAuth, HawcxSdk.initialize in H1.
    destruct window; simpl in H1;
      [destruct (HawcxSdk.authInstance m) eqn:Hm;
       [|destruct imp; simpl in H1;
         [|destruct (init _ _)]]|];
      injection H1 as <- <-; simpl in *;
      try (exists ks; split; [done|]; split; [done|];
           destruct Hnone as [?|[? ?]]; by auto).
    + exists (HawcxSdk.apiKey env_key :: ks). rewrite Hks, <- app_assoc.
      split; [done|]. split; [|by right].
      constructor; [|done]. split; [done|apply apiKey_nonempty].
    + exists (HawcxSdk.apiKey env_key :: ks). rewrite Hks, <- app_assoc.
      split; [done|]. split; [|by right].
      constructor; [|done]. split; [done|apply apiKey_nonempty].
Qed.

(** X4. The two versions of [getHawcxAuth]: in the browser, with the SDK
    loading, the one of lib/hawcx.ts does exactly what the statically
    importing one does; without [window] it throws on every call and leaves
    the module untouched, a cached instance included. *)
Theorem getHawcxAuth_versions {Instance : Type}
    (init : list string → string → HawcxSdk.InitResult Instance)
    (env_key : option string) (m : HawcxSdk.ModuleState Instance) :
  HawcxSdk.getHawcxAuth init true None env_key m
  = HawcxSdk.getHawcxAuth_static init env_key m
  ∧ (∀ imp n,
       HawcxSdk.calls_in_a_row init false imp env_key n m
       = (replicate n
            (HawcxSdk.threw "Hawcx SDK can only be initialized in the browser"),
          m)).
Proof.
  split.
  - unfold HawcxSdk.getHawcxAuth, HawcxSdk.getHawcxAuth_static,
      HawcxSdk.initialize. simpl.
    by destruct (HawcxSdk.authInstance m).
  - intros imp n. induction n as [|n IH]; [done|].
    simpl. by rewrite IH.
Qed.

(** ** What the schemas accept *)

Lemma field_empty name e : Yup.field name e = ∅ ↔ e = None.
Proof.
  unfold Yup.field. destruct e; split; try done.
Qed.

Lemma union_field_empty (m : gmap string Yup.Error) name e :
  m ∪ Yup.field name e = ∅ ↔ m = ∅ ∧ e = None.
Proof.
  split.
  - intros H. pose proof (map_positive_l _ _ H) as ->.
    rewrite (left_id_L ∅ (∪)) in H. by apply field_empty in H.
  - intros [-> ->]. simpl. by rewrite (left_id_L ∅ (∪)).
Qed.

Lemma validate_required_max r n v :
  Yup.validate r (Yup.max n (Yup.required Yup.string)) v = None
  ↔ v ≠ "" ∧ utf16_length v ≤ n.
Proof.
  unfold Yup.validate. simpl. destruct (String.eqb_spec v ""); simpl.
  - split; [done | by intros []].
  - destruct (Nat.leb_spec (utf16_length v) n); split; try done;
      intros [_ ?]; lia.
Qed.

Lemma validate_required_email_max r n v :
  Yup.validate r (Yup.max n (Yup.email (Yup.required Yup.string))) v = None
  ↔ v ≠ "" ∧ r v = true ∧ utf16_length v ≤ n.
Proof.
  unfold Yup.validate. simpl. destruct (String.eqb_spec v ""); simpl.
  - split; [done | by intros []].
  - destruct (r v); simpl; [|split; [done | by intros (_ & ? & _)]].
    destruct (Nat.leb_spec (utf16_length v) n); split; try done;
      intros (_ & _ & ?); lia.
Qed.

Lemma validate_required_min_max r k n v :
  Yup.validate r (Yup.max n (Yup.min k (Yup.required Yup.string))) v = None
  ↔ v ≠ "" ∧ k ≤ utf16_length v ∧ utf16_length v ≤ n.
Proof.
  unfold Yup.validate. simpl. destruct (String.eqb_spec v ""); simpl.
  - split; [done | by intros []].
  - destruct (Nat.leb_spec k (utf16_length v)); simpl;
      [|split; [done | intros (_ & ? & _); lia]].
    destruct (Nat.leb_spec (utf16_length v) n); split; try done;
      intros (_ & _ & ?); lia.
Qed.

Lemma validate_max r n v :
  Yup.validate r (Yup.max n Yup.string) v = None ↔ utf16_length v ≤ n.
Proof.
  unfold Yup.validate. simpl. destruct (String.eqb_spec v "") as [->|]; simpl.
  - split; [simpl; lia | done].
  - destruct (Nat.leb_spec (utf16_length v) n); split; try done; lia.
Qed.

(** A second [max] takes the place of the first. *)
Lemma max_required_email_max n s :
  Yup.max n (Yup.email (Yup.required (Yup.max n s)))
  = Yup.max n (Yup.email (Yup.required s)).
Proof.
  unfold Yup.max, Yup.email, Yup.required. simpl. f_equal.
  rewrite !List.filter_app. simpl. rewrite app_nil_r.
  f_equal. f_equal. induction (Yup.tests s) as [|[] ts IH]; simpl; congruence.
Qed.

Lemma validate_when_otp_None {K} r (key : K) (is_ : K → bool) v :
  Yup.validate r
    (Yup.when key is_ (λ s, Yup.required s) (λ s, Yup.notRequired s)
       Yup.string) v = None
  ↔ (is_ key = true → v ≠ "").
Proof.
  rewrite validate_when_otp.
  destruct (is_ key), (String.eqb_spec v ""); simpl; split; try done.
  intros H. by destruct H.
Qed.

(** A string is measured in UTF-16 units, not in bytes: a team name of two
    accented letters is too short. *)
Example team_of_two_letters_is_too_short :
  String.length "éé" = 4
  ∧ utf16_length "éé" = 2
  ∧ Yup.validate (λ _, true)
      (Yup.string |> Yup.required |> Yup.min 3 |> Yup.max 50) "éé"
    = Some (Yup.min_error 3).
Proof. vm_compute. done. Qed.

Lemma Join_schema_empty
    (P : MaxLengthPolicies) (rEmail : string → bool)
    (context_step : option Join.Step) (v : Join.Values) :
  Join.JoinUserSchema_in P rEmail context_step v = ∅
  ↔ (Join.name v ≠ "" ∧ utf16_length (Join.name v) ≤ policy_name P)
    ∧ (Join.email v ≠ "" ∧ rEmail (Join.email v) = true
       ∧ utf16_length (Join.email v) ≤ policy_email P)
    ∧ (context_step = Some Join.Otp → Join.otp v ≠ "")
    ∧ (3 ≤ utf16_length (Join.team v)
       ∧ utf16_length (Join.team v) ≤ policy_team P).
Proof.
  unfold Join.JoinUserSchema_in.
  rewrite !union_field_empty, field_empty.
  rewrite validate_required_max, validate_required_email_max,
    validate_required_min_max, validate_when_otp_None.
  rewrite bool_decide_eq_true.
  split.
  - intros (((? & ?) & ?) & _ & ? & ?). done.
  - intros ((? & ?) & (? & ? & ?) & ? & Hteam & ?). repeat split; try done.
    intros Hempty. rewrite Hempty in Hteam. simpl in Hteam. lia.
Qed.

(** X5. The schema of the signup form reports no error exactly when the
    name is given and within its limit, the address is given, matches the
    e-mail pattern and is within its limit, the team name has between 3
    UTF-16 units and its limit, and, where the context says that the step
    is ['otp'], the code is given.  As the form runs the context says
    nothing of the step, and the code is not looked at. *)
Theorem Join_schema_accepts
    (P : MaxLengthPolicies) (rEmail : string → bool) (v : Join.Values) :
  (∀ context_step,
     Join.JoinUserSchema_in P rEmail context_step v = ∅
     ↔ (Join.name v ≠ "" ∧ utf16_length (Join.name v) ≤ policy_name P)
       ∧ (Join.email v ≠ "" ∧ rEmail (Join.email v) = true
          ∧ utf16_length (Join.email v) ≤ policy_email P)
       ∧ (context_step = Some Join.Otp → Join.otp v ≠ "")
       ∧ (3 ≤ utf16_length (Join.team v)
          ∧ utf16_length (Join.team v) ≤ policy_team P))
  ∧ (Join.runValidationSchema P rEmail v = ∅
     ↔ (Join.name v ≠ "" ∧ utf16_length (Join.name v) ≤ policy_name P)
       ∧ (Join.email v ≠ "" ∧ rEmail (Join.email v) = true
          ∧ utf16_length (Join.email v) ≤ policy_email P)
       ∧ (3 ≤ utf16_length (Join.team v)
          ∧ utf16_length (Join.team v) ≤ policy_team P)).
Proof.
  split; [intros c; apply Join_schema_empty|].
  unfold Join.runValidationSchema. rewrite Join_schema_empty.
  split.
  - intros (? & ? & _ & ?). done.
  - intros (? & ? & ?). done.
Qed.

Lemma Login_schema_empty
    (P : MaxLengthPolicies) (rEmail : string → bool)
    (context_step : option Login.Step) (v : Login.Values) :
  Login.validationSchema_in P rEmail context_step v = ∅
  ↔ (Login.email v ≠ "" ∧ rEmail (Login.email v) = true
     ∧ utf16_length (Login.email v) ≤ policy_email P)
    ∧ (context_step = Some Login.Otp → Login.otp v ≠ "").
Proof.
  unfold Login.validationSchema_in.
  rewrite union_field_empty, field_empty.
  rewrite validate_required_email_max, validate_when_otp_None.
  by rewrite bool_decide_eq_true.
Qed.

(** X6. The schema of the login page reports no error exactly when the
    address is given, matches the e-mail pattern and is within its limit,
    and, where the context says that the step is ['otp'], the code is given.
    As the page runs the context says nothing of the step, and the code is
    not looked at. *)
Theorem Login_schema_accepts
    (P : MaxLengthPolicies) (rEmail : string → bool) (v : Login.Values) :
  (∀ context_step,
     Login.validationSchema_in P rEmail context_step v = ∅
     ↔ (Login.email v ≠ "" ∧ rEmail (Login.email v) = true
        ∧ utf16_length (Login.email v) ≤ policy_email P)
       ∧ (context_step = Some Login.Otp → Login.otp v ≠ ""))
  ∧ (Login.runValidationSchema P rEmail v = ∅
     ↔ Login.email v ≠ "" ∧ rEmail (Login.email v) = true
       ∧ utf16_length (Login.email v) ≤ policy_email P).
Proof.
  split; [intros c; apply Login_schema_empty|].
  unfold Login.runValidationSchema. rewrite Login_schema_empty.
  split.
  - intros (? & _). done.
  - intros ?. done.
Qed.

Lemma JoinWithInvitation_schema_empty
    (P : MaxLengthPolicies) (rEmail : string → bool)
    (context_step : option JoinWithInvitation.Step)
    (v : JoinWithInvitation.Values) :
  JoinWithInvitation.JoinUserSchema_in P rEmail context_step v = ∅
  ↔ (JoinWithInvitation.name v ≠ ""
     ∧ utf16_length (JoinWithInvitation.name v) ≤ policy_name P)
    ∧ (context_step = Some JoinWithInvitation.Otp →
       JoinWithInvitation.otp v ≠ "")
    ∧ (if JoinWithInvitation.sentViaEmail v
       then utf16_length (JoinWithInvitation.email v) ≤ policy_email P
       else JoinWithInvitation.email v ≠ ""
            ∧ rEmail (JoinWithInvitation.email v) = true
            ∧ utf16_length (JoinWithInvitation.email v) ≤ policy_email P).
Proof.
  unfold JoinWithInvitation.JoinUserSchema_in.
  rewrite !union_field_empty, field_empty.
  rewrite validate_required_max, validate_when_otp_None.
  rewrite bool_decide_eq_true.
  unfold Yup.when at 1.
  destruct (JoinWithInvitation.sentViaEmail v); simpl.
  - rewrite validate_max. split.
    + intros (((? & ?) & _) & ?). done.
    + intros (? & ? & ?). done.
  - rewrite max_required_email_max, validate_required_email_max. split.
    + intros (((? & ?) & _) & ?). done.
    + intros (? & ? & ?). done.
Qed.

(** The invitation form validates [sentViaEmail = true] in every state it
    can reach under Formik as well. *)
Lemma JoinWithInvitation_run_form_sentViaEmail
    (validate : JoinWithInvitation.Values → gmap string Yup.Error)
    provider t tk l e i evs st w :
  JoinWithInvitation.sentViaEmail (values st) = true →
  JoinWithInvitation.sentViaEmail
    (values (run_form validate provider
               (JoinWithInvitation.component t tk l e i) evs (st, w)).1)
  = true.
Proof.
  intros Hst.
  apply (run_form_invariant validate provider
           (JoinWithInvitation.component t tk l e i)
           (λ σ, JoinWithInvitation.sentViaEmail (values σ.1) = true));
    [|done].
  intros ev' [st' w'] Hst'.
  apply (JoinWithInvitation_run_sentViaEmail provider t tk l e i [ev']).
  exact Hst'.
Qed.

(** X7. In every state the invitation form can reach under Formik, for
    every invitation, the form as it runs passes validation exactly when the
    name is given and within its limit and the address is within its limit:
    the address may be empty, the e-mail pattern is never consulted, and the
    code is not looked at, in either step. *)
Theorem JoinWithInvitation_schema_accepts
    (P : MaxLengthPolicies) (rEmail : string → bool) (provider : Provider)
    (t : string → string) (inviteToken : string) (isLoading : bool)
    (error : option string) (invitation : option Invitation.t)
    (evs : list FormEvent) (w : World JoinWithInvitation.Step) :
  let validate := JoinWithInvitation.runValidationSchema P rEmail in
  let st := (run_form validate provider
               (JoinWithInvitation.component t inviteToken isLoading error
                  invitation)
               evs (JoinWithInvitation.init invitation, w)).1 in
  validate (values st) = ∅
  ↔ (JoinWithInvitation.name (values st) ≠ ""
     ∧ utf16_length (JoinWithInvitation.name (values st)) ≤ policy_name P)
    ∧ utf16_length (JoinWithInvitation.email (values st)) ≤ policy_email P.
Proof.
  intros validate st.
  assert (Hsent : JoinWithInvitation.sentViaEmail (values st) = true).
  { apply JoinWithInvitation_run_form_sentViaEmail,
      initialValues_sentViaEmail. }
  unfold validate, JoinWithInvitation.runValidationSchema.
  rewrite JoinWithInvitation_schema_empty, Hsent. split.
  - intros (? & _ & ?). done.
  - intros (? & ?). done.
Qed.

(** ** The order of the provider calls *)

Section ProtocolOrder.
Context {Step Values : Type}.
Variable provider : Provider.
Variable C : Component Step Values.
Variable in_otp : Step → bool.
Variable request : Hawcx.Call → bool.

Hypothesis request_not_verify :
  ∀ c, request c = true → is_verifyOTP c = false.

(** A submission makes one call, a request before the step ['otp'] and a
    verification in it, and never leaves that step. *)
Hypothesis submit_call :
  ∀ st w, ∃ c,
    calls (handle provider C Submit (st, w)).2 = calls w ++ [c]
    ∧ (if in_otp (step st) then is_verifyOTP c = true else request c = true)
    ∧ (in_otp (step st) = true →
       in_otp (step (handle provider C Submit (st, w)).1) = true).





End ProtocolOrder.


(** ** Where the forms navigate and what they store *)

Section SignupNavigation.
Context {Step Values : Type}.
Variable provider : Provider.
Variable C : Component Step Values.
Variable target : string.

(** A submission pushes nothing, or [target] on a [verifyOTP], and stores
    nothing. *)
Hypothesis submit_push :
  ∀ st w, ∃ c ps,
    let σ := handle provider C Submit (st, w) in
    calls σ.2 = calls w ++ [c]
    ∧ pushes σ.2 = pushes w ++ ps
    ∧ (ps = [] ∨ (ps = [target] ∧ is_verifyOTP c = true))
    ∧ writes σ.2 = writes w
    ∧ sessionStorage σ.2 = sessionStorage w.

Lemma signup_navigation_run evs st :
  let w := (run provider C evs (st, empty_world)).2 in
  Forall (λ url, url = target) (pushes w)
  ∧ length (pushes w) ≤ length (filter (λ c, is_verifyOTP c = true) (calls w))
  ∧ writes w = []
  ∧ sessionStorage w = ∅.
Proof.
  simpl.
  apply (run_invariant provider C
           (λ σ, Forall (λ url, url = target) (pushes σ.2)
                 ∧ length (pushes σ.2)
                   ≤ length (filter (λ c, is_verifyOTP c = true) (calls σ.2))
                 ∧ writes σ.2 = []
                 ∧ sessionStorage σ.2 = ∅)); [|by repeat split].
  intros ev [st' w'] (Hall & Hlen & Hwr & Hst). simpl in *.
  assert (Hev : ev = Submit ∨ ev ≠ Submit) by (destruct ev; auto).
  destruct Hev as [->|Hev].
  - destruct (submit_push st' w') as (c & ps & Hc & Hp & Hps & Hw & Hs).
    simpl in *. rewrite Hc, Hp, Hw, Hs, filter_app, !length_app.
    repeat split; try done.
    + apply Forall_app. split; [done|].
      destruct Hps as [->|[-> _]]; by repeat constructor.
    + destruct Hps as [->|[-> Hv]]; simpl; [lia|].
      rewrite filter_cons_True by done. simpl. lia.
  - destruct (handle_no_submit provider C ev st' w' Hev) as [_ ->]. done.
Qed.
End SignupNavigation.

(** X9. In every run of a signup form from an empty session, every
    [router.push] goes to the login page (with the invitation token, on the
    invitation form), there is at most one push per [verifyOTP] call made, so
    none before the first, and nothing is ever written to [sessionStorage]. *)
Theorem signup_forms_navigate_to_login
    (provider : Provider) (evs : list UserEvent) :
  (∀ t st,
     let w := (run provider (Join.component t) evs (st, empty_world)).2 in
     Forall (λ url, url = "/auth/login") (pushes w)
     ∧ length (pushes w)
       ≤ length (filter (λ c, is_verifyOTP c = true) (calls w))
     ∧ writes w = []
     ∧ sessionStorage w = ∅)
  ∧ (∀ t tk l e i st,
       let w := (run provider (JoinWithInvitation.component t tk l e i) evs
                   (st, empty_world)).2 in
       Forall (λ url, url = "/auth/login?token=" +:+ tk) (pushes w)
       ∧ length (pushes w)
         ≤ length (filter (λ c, is_verifyOTP c = true) (calls w))
       ∧ writes w = []
       ∧ sessionStorage w = ∅).
Proof.
  split.
  - intros t st. apply signup_navigation_run.
    intros st' w'.
    destruct (Join_submit_summary provider t st' w')
      as (Hc & (ps & Hp & Hps) & Hw & Hs & _).
    eexists _, ps. simpl. repeat split; try done.
    destruct Hps as [->|[-> Hstep]]; [by left|right].
    by rewrite Hstep.
  - intros t tk l e i st. apply signup_navigation_run.
    intros st' w'.
    destruct (JoinWithInvitation_submit_summary provider t tk l e i st' w')
      as (Hc & (ps & Hp & Hps) & Hw & Hs & _).
    eexists _, ps. simpl. repeat split; try done.
    destruct Hps as [->|[-> Hstep]]; [by left|right].
    by rewrite Hstep.
Qed.

(** X10. In every run of the login page from an empty session, the store
    holds nothing but the token of the last write, under ["access_token"];
    every write is of a non-empty token under that key; every [router.push]
    goes to [redirectUrl]; and there are at least as many pushes as writes. *)
Theorem login_store_holds_last_token
    (provider : Provider) (q : Login.Query) (d : string) (page : Login.Page)
    (evs : list UserEvent) (st : State Login.Step Login.Values) :
  let w := (run provider (Login.component q d page) evs (st, empty_world)).2 in
  sessionStorage w
  = match last (writes w) with
    | Some (_, tk) => {[ "access_token" := tk ]}
    | None => ∅
    end
  ∧ Forall (λ kv, kv.1 = "access_token" ∧ kv.2 ≠ "") (writes w)
  ∧ Forall (λ url, url = Login.redirectUrl (Login.token q) d) (pushes w)
  ∧ length (writes w) ≤ length (pushes w).
Proof.
  simpl.
  apply (run_invariant provider (Login.component q d page)
           (λ σ, sessionStorage σ.2
                 = match last (writes σ.2) with
                   | Some (_, tk) => {[ "access_token" := tk ]}
                   | None => ∅
                   end
                 ∧ Forall (λ kv, kv.1 = "access_token" ∧ kv.2 ≠ "")
                     (writes σ.2)
                 ∧ Forall (λ url, url = Login.redirectUrl (Login.token q) d)
                     (pushes σ.2)
                 ∧ length (writes σ.2) ≤ length (pushes σ.2)));
    [|by repeat split].
  intros ev [st' w'] (Hst & Hwr & Hpu & Hlen). simpl in *.
  assert (Hev : ev = Submit ∨ ev ≠ Submit) by (destruct ev; auto).
  destruct Hev as [->|Hev].
  - destruct (Login_submit_summary provider q d page st' w')
      as (_ & Hcases & _). simpl in Hcases.
    destruct Hcases as [(Hw & Hs & Hp) | (tk & Hne & Hw & Hs & Hp)].
    + rewrite Hw, Hs. repeat split; try done.
      * destruct Hp as [->| ->]; [done|].
        apply Forall_app. split; [done|]. by repeat constructor.
      * destruct Hp as [->| ->]; [done|]. rewrite length_app. simpl. lia.
    + rewrite Hw, Hs, Hp, last_snoc, !length_app. simpl.
      repeat split.
      * rewrite Hst. destruct (last (writes w')) as [[k v]|].
        -- apply insert_singleton_eq.
        -- apply insert_empty.
      * apply Forall_app. split; [done|]. by repeat constructor.
      * apply Forall_app. split; [done|]. by repeat constructor.
      * lia.
  - destruct (handle_no_submit provider (Login.component q d page)
                ev st' w' Hev) as [_ ->]. done.
Qed.

(** ** The address the invitation form signs up *)

Lemma JoinWithInvitation_handleChange_email n v vs :
  n ≠ "email" →
  JoinWithInvitation.email (JoinWithInvitation.handleChange n v vs)
  = JoinWithInvitation.email vs.
Proof.
  intros Hn. unfold JoinWithInvitation.handleChange.
  destruct (String.eqb_spec n "name"); [done|].
  destruct (String.eqb_spec n "email"); [done|].
  by destruct (String.eqb_spec n "otp").
Qed.

(** X11. With an invitation that was sent by e-mail, the address the form
    shows is the invitation's, but [values.email] is never set: in every run
    from the initial state, every [signUp] call is made with the empty
    string. *)
Theorem invitation_sent_by_email_signs_up_empty
    (provider : Provider) (t : string → string) (inviteToken : string)
    (isLoading : bool) (error : option string) (address : option string)
    (evs : list UserEvent) :
  let invitation :=
    Some {| Invitation.email := address; Invitation.sentViaEmail := true |} in
  let σ := run provider
             (JoinWithInvitation.component t inviteToken isLoading error
                invitation)
             evs (JoinWithInvitation.init invitation, empty_world) in
  JoinWithInvitation.email (values σ.1) = ""
  ∧ Forall (λ c, c = Hawcx.signUp "" ∨ is_signUp c = false) (calls σ.2).
Proof.
  intros invitation σ. subst σ.
  apply (run_invariant provider _
           (λ σ, JoinWithInvitation.email (values σ.1) = ""
                 ∧ Forall (λ c, c = Hawcx.signUp "" ∨ is_signUp c = false)
                     (calls σ.2)));
    [|by split].
  intros ev [st w] [Hemail Hcalls]. simpl in *.
  destruct ev as [n v|tok|].
  - unfold handle. destruct (editable _ st n) eqn:Hed; [|done]. simpl.
    split; [|done].
    rewrite JoinWithInvitation_handleChange_email; [done|].
    intros ->. subst invitation.
    by rewrite sentViaEmail_email_not_editable in Hed.
  - done.
  - destruct (JoinWithInvitation_submit_summary provider t inviteToken
                isLoading error invitation st w)
      as (Hc & _ & _ & _ & Hv & _).
    rewrite Hc, Hv. split; [done|].
    apply Forall_app. split; [done|]. constructor; [|done].
    destruct (step st); [|by right]. rewrite Hemail. by left.
Qed.

(** ** Submissions that pass validation *)

Section ValidatedRuns.
Context {Step Values : Type}.
Variable validate : Values → gmap string Yup.Error.
Variable provider : Provider.
Variable C : Component Step Values.
Variable good : Hawcx.Call → Prop.

(** Values the schema accepts make a submission call the provider with
    good arguments. *)
Hypothesis accepted_call :
  ∀ st w, validate (values st) = ∅ →
    ∃ c, calls (handle provider C Submit (st, w)).2 = calls w ++ [c] ∧ good c.

Lemma run_form_calls evs :
  ∀ σ, Forall good (calls σ.2) →
       Forall good (calls (run_form validate provider C evs σ).2).
Proof.
  induction evs as [|ev evs IH]; intros σ Hσ; [done|].
  simpl. apply IH. destruct σ as [st w]. simpl in *.
  destruct ev as [n v|tok|sdk]; simpl; [done..|].
  destruct (reaches_onSubmit validate sdk st) eqn:Hreach; [|done].
  apply reaches_onSubmit_valid in Hreach as [Hvalid _].
  destruct (accepted_call st w Hvalid) as (c & -> & Hc).
  apply Forall_app. split; [done|]. by constructor.
Qed.
End ValidatedRuns.

(** X12. Submitting through Formik, the forms hand the provider validated
    addresses only: in every run from the initial state, whether or not the
    SDK handle is there at each press, every [signUp] of the signup form and
    every [signIn] of the login page carries a non-empty address that
    matches the e-mail pattern and is within its limit, and every [signUp]
    of the invitation form an address within its limit.  Nothing of the kind
    holds of the code: see [formik_run_verifies_empty_code]. *)
Theorem validated_forms_call_with_valid_arguments
    (P : MaxLengthPolicies) (rEmail : string → bool)
    (provider : Provider) (evs : list FormEvent) :
  (∀ t,
     Forall (validated_call P rEmail)
       (calls (run_form (Join.runValidationSchema P rEmail) provider
                 (Join.component t) evs (Join.init, empty_world)).2))
  ∧ (∀ q d page,
       Forall (validated_call P rEmail)
         (calls (run_form (Login.runValidationSchema P rEmail) provider
                   (Login.component q d page) evs
                   (Login.init q, empty_world)).2))
  ∧ (∀ t tk l e i,
       Forall (λ c, ∀ a, c = Hawcx.signUp a → utf16_length a ≤ policy_email P)
         (calls (run_form (JoinWithInvitation.runValidationSchema P rEmail)
                   provider (JoinWithInvitation.component t tk l e i) evs
                   (JoinWithInvitation.init i, empty_world)).2)).
Proof.
  split; [|split].
  - intros t. apply run_form_calls; [|done].
    intros st w Hvalid.
    apply Join_schema_empty in Hvalid as (_ & (? & ? & ?) & _).
    destruct (Join_submit_summary provider t st w) as (Hc & _).
    eexists. split; [exact Hc|].
    by destruct (step st).
  - intros q d page. apply run_form_calls; [|done].
    intros st w Hvalid.
    apply Login_schema_empty in Hvalid as ((? & ? & ?) & _).
    destruct (Login_submit_summary provider q d page st w) as (Hc & _).
    eexists. split; [exact Hc|].
    by destruct (step st).
  - intros t tk l e i. apply run_form_calls; [|done].
    intros st w Hvalid.
    apply JoinWithInvitation_schema_empty in Hvalid as (_ & _ & Hemail).
    destruct (JoinWithInvitation_submit_summary provider t tk l e i st w)
      as (Hc & _).
    eexists. split; [exact Hc|].
    destruct (step st); [|done]. intros a [= <-].
    by destruct (JoinWithInvitation.sentViaEmail (values st));
      [|destruct Hemail as (_ & _ & ?)].
Qed.

(** A run of the signup form under Formik: a submission of the empty form
    is held back, one without the SDK handle does nothing, the filled form
    reaches [signUp], and in the step ['otp'] the empty code reaches
    [verifyOTP]. *)
Example formik_run_verifies_empty_code :
  let P := {| policy_name := 104; policy_email := 254; policy_team := 50 |} in
  let σ := run_form (Join.runValidationSchema P (λ _, true))
             (two_phase_provider "T2") (Join.component (λ key, key))
             [press true; change "name" "Ann"; change "team" "core";
              change "email" "a@b.com"; press false; press true; press true]
             (Join.init, empty_world) in
  calls σ.2 = [Hawcx.signUp "a@b.com"; Hawcx.verifyOTP ""]
  ∧ pushes σ.2 = ["/auth/login"].
Proof. vm_compute. done. Qed.

(** ** The alert of the login page *)

Lemma handle_no_submit_message {Step Values} provider
    (C : Component Step Values) ev st w :
  ev ≠ Submit → message (handle provider C ev (st, w)).1 = message st.
Proof.
  intros Hev. unfold handle. destruct ev as [n v|tok|]; [| |done].
  - by destruct (editable C st n).
  - done.
Qed.

Lemma Login_submit_message provider q d page st w :
  let c := match step st with
           | Login.Email => Hawcx.signIn (Login.email (values st))
           | Login.Otp => Hawcx.verifyOTP (Login.otp (values st))
           end in
  let res := provider (calls w ++ [c]) in
  message (handle provider (Login.component q d page) Submit (st, w)).1
  = if Hawcx.success res then no_message
    else {| text := Some (Hawcx.message res); status := Some Status.error |}.
Proof.
  intros c res. subst c res. destruct (step st) eqn:Hstep.
  - rewrite (Login_submit_email provider q d page st w Hstep). simpl.
    destruct (Hawcx.success _); [destruct (truthy_opt _)|]; done.
  - rewrite (Login_submit_otp provider q d page st w Hstep). simpl.
    destruct (Hawcx.success _); [destruct (truthy_opt _)|]; done.
Qed.



(** X14. What the alert shows: on arrival, the translation of the query's
    [success] when it is non-empty, else of its [error] when that is
    non-empty, else nothing; right after a submission, nothing when the
    provider answered with success or with a failure whose message is empty,
    and the translation of the failure message, with the status ['error'],
    otherwise. *)
Theorem login_alert_shows
    (t : string → string) (q : Login.Query) :
  LoginPage.alert t (Login.initialMessage q)
  = (if truthy_opt (Login.success q)
     then Some (Status.success, t (to_string (Login.success q)))
     else if truthy_opt (Login.error q)
     then Some (Status.error, t (to_string (Login.error q)))
     else None)
  ∧ (∀ provider d page st w,
       let c := match step st with
                | Login.Email => Hawcx.signIn (Login.email (values st))
                | Login.Otp => Hawcx.verifyOTP (Login.otp (values st))
                end in
       let res := provider (calls w ++ [c]) in
       LoginPage.alert t
         (message (handle provider (Login.component q d page) Submit
                     (st, w)).1)
       = if Hawcx.success res || negb (truthy (Hawcx.message res))
         then None
         else Some (Status.error, t (Hawcx.message res))).
Proof.
  split.
  - unfold Login.initialMessage, LoginPage.alert.
    destruct (Login.success q) as [s|], (Login.error q) as [e|]; simpl;
      try destruct (truthy s) eqn:Hs; try destruct (truthy e) eqn:He;
      simpl; rewrite ?Hs, ?He; done.
  - intros provider d page st w c res. subst c res.
    rewrite Login_submit_message.
    destruct (Hawcx.success _); [done|]. unfold LoginPage.alert. simpl.
    by destruct (truthy _).
Qed.

(** ** The links of the login page *)

(** X15. The links and the redirect treat the invitation token alike: with
    a non-empty token the links to the magic-link page and to the signup
    page carry [?token=] and the redirect is the invitation page; with an
    absent or empty token the links are bare and the redirect is the
    configured default. *)
Theorem login_links_follow_token
    (token : option string) (redirectIfAuthenticated : string) :
  (∃ tk, token = Some tk ∧ tk ≠ ""
         ∧ LoginPage.magicLinkHref token = "/auth/magic-link?token=" +:+ tk
         ∧ LoginPage.joinHref token = "/auth/join?token=" +:+ tk
         ∧ Login.redirectUrl token redirectIfAuthenticated
           = "/invitations/" +:+ tk)
  ∨ ((token = None ∨ token = Some "")
     ∧ LoginPage.magicLinkHref token = "/auth/magic-link"
     ∧ LoginPage.joinHref token = "/auth/join"
     ∧ Login.redirectUrl token redirectIfAuthenticated
       = redirectIfAuthenticated).
Proof.
  unfold LoginPage.magicLinkHref, LoginPage.joinHref, LoginPage.params,
    Login.redirectUrl.
  destruct (truthy_opt token) eqn:Htk.
  - apply truthy_opt_true in Htk as (tk & -> & Hne). left. by exists tk.
  - right. split; [|done]. destruct token as [tk|]; [|by left].
    right. f_equal. simpl in Htk. unfold truthy in Htk.
    by destruct (String.eqb_spec tk "").
Qed.

(** ** The properties above on concrete input *)

Lemma Join_schema_accepts_witness :
  Join.runValidationSchema
    {| policy_name := 104; policy_email := 254; policy_team := 50 |}
    (λ _, true)
    {| Join.name := "Ann"; Join.email := "a@b.com"; Join.otp := "";
       Join.team := "core" |} = ∅.
Proof.
  apply Join_schema_accepts. simpl.
  repeat split; try discriminate; try lia; try reflexivity.
Defined.

Lemma Login_schema_accepts_witness :
  Login.runValidationSchema
    {| policy_name := 104; policy_email := 254; policy_team := 50 |}
    (λ _, true) {| Login.email := "a@b.com"; Login.otp := "" |} = ∅.
Proof.
  apply Login_schema_accepts. simpl.
  repeat split; try discriminate; try lia; try reflexivity.
Defined.

(** An invitation that was not sent by e-mail, the name typed in, and an
    address that matches no pattern. *)
Lemma JoinWithInvitation_schema_accepts_witness :
  let P := {| policy_name := 104; policy_email := 254; policy_team := 50 |} in
  let invitation :=
    Some {| Invitation.email := None; Invitation.sentViaEmail := false |} in
  let st := (run_form (JoinWithInvitation.runValidationSchema P (λ _, false))
               (two_phase_provider "T2")
               (JoinWithInvitation.component (λ key, key) "INV1" false None
                  invitation)
               [change "name" "Ann"; change "email" "not an address"]
               (JoinWithInvitation.init invitation, empty_world)).1 in
  JoinWithInvitation.email (values st) = "not an address"
  ∧ JoinWithInvitation.runValidationSchema P (λ _, false) (values st) = ∅.
Proof.
  intros P invitation st. split; [reflexivity|].
  apply (proj2 (JoinWithInvitation_schema_accepts P
                  (λ _, false) (two_phase_provider "T2") (λ key, key) "INV1"
                  false None invitation
                  [change "name" "Ann"; change "email" "not an address"]
                  empty_world)).
  simpl. repeat split; try discriminate; try lia; try reflexivity.
Defined.

(** The code left empty on the login page, in the step ['otp']. *)
Lemma otp_not_required_as_the_forms_run_witness :
  let P := {| policy_name := 104; policy_email := 254; policy_team := 50 |} in
  let validate := Login.runValidationSchema P (λ _, true) in
  let st := {| step := Login.Otp;
               values := {| Login.email := "a@b.com"; Login.otp := "" |};
               recaptchaToken := ""; message := no_message |} in
  step st = Login.Otp
  ∧ validate (values st) = ∅
  ∧ calls (handle_form validate (two_phase_provider "T2")
             (Login.component plain_query "/dashboard" form_page)
             (press true) (st, empty_world)).2
    = [Hawcx.verifyOTP ""].
Proof.
  intros P validate st.
  split; [reflexivity|]. split; [reflexivity|].
  apply (proj2 (proj2 (proj2 (proj2 (proj2
           (otp_not_required_as_the_forms_run P (λ _, true))))))
           (two_phase_provider "T2") plain_query "/dashboard" form_page
           st empty_world); reflexivity.
Defined.

(** A second press of the submit button of the login page while the
    [signIn] of the first is awaited. *)
Lemma submission_joins_those_in_flight_witness :
  let P := {| policy_name := 104; policy_email := 254; policy_team := 50 |} in
  let validate := Login.runValidationSchema P (λ _, true) in
  let C := Login.component plain_query "/dashboard" form_page in
  let π := run_mounted validate C
             [user (change "email" "a@b.com"); user (press true)]
             (mount (Login.init plain_query)) in
  let π' := step_mounted validate C (user (press true)) π in
  validate (values (cells π)) = ∅
  ∧ map flight_call (in_flight π) = [Hawcx.signIn "a@b.com"]
  ∧ isSubmitting π = true
  ∧ ∃ k, in_flight π'
         = in_flight π ++ [{| flight_call := Hawcx.signIn "a@b.com";
                              flight_k := k |}].
Proof.
  intros P validate C π π'.
  split; [reflexivity|]. split; [reflexivity|]. split; [reflexivity|].
  apply (proj1 (proj2 (proj2 (submission_joins_those_in_flight P (λ _, true)))
                  plain_query "/dashboard" form_page π eq_refl)).
Defined.

(** Two submissions of the login page that overlap: both [signIn] calls are
    answered, the first with a challenge and the second with a token. *)
Example login_overlapping_submissions :
  let P := {| policy_name := 104; policy_email := 254; policy_team := 50 |} in
  let π := run_mounted (Login.runValidationSchema P (λ _, true))
             (Login.component plain_query "/dashboard" form_page)
             [user (change "email" "a@b.com"); user (press true);
              user (press true); settle 0 answer_challenge;
              settle 0 (answer_token "T1")]
             (mount (Login.init plain_query)) in
  calls (world π) = [Hawcx.signIn "a@b.com"; Hawcx.signIn "a@b.com"]
  ∧ step (cells π) = Login.Otp
  ∧ writes (world π) = [("access_token", "T1")]
  ∧ pushes (world π) = ["/dashboard"]
  ∧ in_flight π = [].
Proof. vm_compute. done. Qed.


(** ** The step of the signup forms *)

(** X16. A signup form that has reached the step ['otp'] stays in it: no
    sequence of edits, CAPTCHA changes and submissions, whatever the
    provider answers, brings it back to the step ['form']. *)
Theorem signup_step_never_goes_back
    (provider : Provider) (evs : list UserEvent) :
  (∀ t st w,
     step st = Join.Otp →
     step (run provider (Join.component t) evs (st, w)).1 = Join.Otp)
  ∧ (∀ t tk l e i st w,
       step st = JoinWithInvitation.Otp →
       step (run provider (JoinWithInvitation.component t tk l e i) evs
               (st, w)).1 = JoinWithInvitation.Otp).
Proof.
  split.
  - intros t st w Hstep.
    apply (run_invariant provider (Join.component t)
             (λ σ, step σ.1 = Join.Otp)); [|done].
    intros ev [st' w'] Hst'. simpl in *.
    assert (Hev : ev = Submit ∨ ev ≠ Submit) by (destruct ev; auto).
    destruct Hev as [->|Hev].
    + destruct (Join_submit_summary provider t st' w')
        as (_ & _ & _ & _ & _ & Hstay). by apply Hstay.
    + destruct (handle_no_submit provider (Join.component t) ev st' w' Hev)
        as [-> _]. done.
  - intros t tk l e i st w Hstep.
    apply (run_invariant provider (JoinWithInvitation.component t tk l e i)
             (λ σ, step σ.1 = JoinWithInvitation.Otp)); [|done].
    intros ev [st' w'] Hst'. simpl in *.
    assert (Hev : ev = Submit ∨ ev ≠ Submit) by (destruct ev; auto).
    destruct Hev as [->|Hev].
    + destruct (JoinWithInvitation_submit_summary provider t tk l e i st' w')
        as (_ & _ & _ & _ & _ & Hstay). by apply Hstay.
    + destruct (handle_no_submit provider
                  (JoinWithInvitation.component t tk l e i) ev st' w' Hev)
        as [-> _]. done.
Qed.

Lemma signup_step_never_goes_back_witness :
  step (join_filled Join.Otp) = Join.Otp
  ∧ step (run (λ _, answer_failure "expired") (Join.component (λ key, key))
            [Change "otp" "000000"; Submit; Change "email" "c@d.com"; Submit]
            (join_filled Join.Otp, empty_world)).1 = Join.Otp.
Proof.
  split; [reflexivity|].
  apply (proj1 (signup_step_never_goes_back (λ _, answer_failure "expired")
                  [Change "otp" "000000"; Submit; Change "email" "c@d.com";
                   Submit])).
  reflexivity.
Defined.
